(** * Chikkl/my_leetcode: the grading engine of the async test framework

    A shallow embedding of [core/aync_test_runner.py] (the concurrent test
    harness) and of [core/logic.py] (the process-isolated runner and the
    orchestrator), with the properties of the specification stated and
    settled on it. *)

From Corelib Require Import SpecFloat.
From Stdlib Require Import ZArith QArith Qminmax Lqa Lia.
From stdpp Require Import base option list gmap strings pretty.

Set Warnings "-register-all".


(** ** Python values

    The fragment of Python objects that test inputs and outputs range over
    ([InputType], [OutputType] in the source are unconstrained type
    variables).  Floats are IEEE 754 binary64 data. *)

Inductive pyval :=
| PyNone
| PyBool (b : bool)
| PyInt (n : Z)
| PyFloat (f : spec_float)
| PyStr (s : string)
| PyList (l : list pyval)
| PyTuple (l : list pyval).

(** Numbers as Python's [==] sees them: [bool] is a subclass of [int]. *)
Inductive number :=
| NInt (n : Z)
| NFloat (f : spec_float).

Definition as_number (v : pyval) : option number :=
  match v with
  | PyBool b => Some (NInt (Z.b2z b))
  | PyInt n => Some (NInt n)
  | PyFloat f => Some (NFloat f)
  | _ => None
  end.

(** [float == int] in CPython compares the two mathematical values exactly:
    a finite float [(-1)^s * m * 2^e] equals [n] when it is integral and that
    integer is [n]; infinities and NaN equal no integer. *)
Definition float_eq_int (f : spec_float) (n : Z) : bool :=
  match f with
  | S754_zero _ => (n =? 0)%Z
  | S754_finite s m e =>
      let sm := if s then Z.neg m else Z.pos m in
      if (0 <=? e)%Z then (n =? sm * 2 ^ e)%Z
      else ((Z.pos m mod 2 ^ (- e) =? 0) && (n =? sm / 2 ^ (- e)))%Z
  | S754_infinity _ | S754_nan => false
  end.

Definition number_eq (a b : number) : bool :=
  match a, b with
  | NInt n, NInt m => (n =? m)%Z
  | NFloat f, NFloat g => SFeqb f g
  | NFloat f, NInt n | NInt n, NFloat f => float_eq_int f n
  end.

(** [a == b] on the fragment.  Sequences compare element by element, a list
    never equals a tuple, and values of unrelated types are unequal. *)
Fixpoint py_eq (a b : pyval) : bool :=
  let fix seq_eq (l m : list pyval) : bool :=
    match l, m with
    | [], [] => true
    | x :: l', y :: m' => py_eq x y && seq_eq l' m'
    | _, _ => false
    end in
  match a, b with
  | PyNone, PyNone => true
  | PyStr s, PyStr t => String.eqb s t
  | PyList l, PyList m => seq_eq l m
  | PyTuple l, PyTuple m => seq_eq l m
  | _, _ =>
      match as_number a, as_number b with
      | Some x, Some y => number_eq x y
      | _, _ => false
      end
  end.

(** The float [20.0]: mantissa [5 * 2^50], exponent [-48]. *)
Definition float_20 : spec_float := S754_finite false 5629499534213120 (-48).

(** ** Exceptions and the results of Python computations *)

(** The classes the handlers of the source tell apart. *)
Inductive exn_class :=
| SyntaxError (msg : string) (lineno : option Z)
| TimeoutError         (* asyncio.TimeoutError *)
| OtherException       (* any other class derived from Exception *)
| BaseOnly.            (* SystemExit, KeyboardInterrupt, CancelledError:
                          derived from BaseException but not from Exception *)

(** An exception: its class, [str(e)] and the trace that
    [traceback.format_exc()] renders for it. *)
Record exn := Exn { cls : exn_class; str_e : string; format_exc : string }.

Definition is_TimeoutError (e : exn) : bool :=
  match cls e with TimeoutError => true | _ => false end.

(** [except Exception] catches every class but the [BaseOnly] ones. *)
Definition is_Exception (e : exn) : bool :=
  match cls e with BaseOnly => false | _ => true end.

(** A Python call returns, raises, or never gives control back. *)
Inductive outcome (A : Type) :=
| Ret (a : A)
| Throw (e : exn)
| Diverge.
Arguments Ret {A} a.
Arguments Throw {A} e.
Arguments Diverge {A}.

(** ** Coroutines

    What awaiting [user_func(input_data)] does.  [elapsed] is the wall-clock
    time (seconds) the body needs when it is left alone.  [yields] tells
    whether the body keeps the event loop busy until it is done
    ([time.sleep(5)], a busy loop), or suspends at its awaits, so that the
    loop runs its timers and can cancel it ([await asyncio.sleep(5)]); a
    body that suspends either lets the [CancelledError] through or catches it
    and goes on.

    The behaviour of a call is a function of its input alone.  That is so
    for coroutines that suspend at their awaits, which do not delay one
    another; a coroutine that keeps the loop busy also holds back the tasks
    scheduled with it, and the statements that compare the cases of one run
    are made for coroutines that suspend. *)

Inductive completion :=
| Return (v : pyval)
| Raise (e : exn).

(** What a suspended body does once it is cancelled: it unwinds, or it
    catches the [CancelledError] and ends with [late], a completion and the
    seconds it took in all, or never ends ([None]). *)
Inductive reaction :=
| Unwinds
| Resumes (late : option (completion * Q)).

Inductive yielding :=
| Busy
| Suspends (r : reaction).

Inductive coroutine :=
| Finishes (c : completion) (elapsed : Q) (yields : yielding)
| Forever (yields : yielding).

Definition deliver (c : completion) (elapsed : Q) : outcome (pyval * Q) :=
  match c with
  | Return v => Ret (v, elapsed)
  | Raise e => Throw e
  end.

Definition timeout_exn : exn :=
  {| cls := TimeoutError; str_e := ""; format_exc := "TimeoutError" |}.

(** [await _cancel_and_wait(fut)] followed by [fut.result()]: the cancelled
    task is awaited to its end, and what it ends with is what [wait_for]
    gives; a task that ends cancelled becomes a [TimeoutError]. *)
Definition cancel_and_wait (r : reaction) : outcome (pyval * Q) :=
  match r with
  | Unwinds => Throw timeout_exn
  | Resumes (Some (c, elapsed)) => deliver c elapsed
  | Resumes None => Diverge
  end.

(** [await asyncio.wait_for(co, timeout)], with the time the await took, as
    [asyncio/tasks.py] has it up to CPython 3.11.  With a timeout that is
    not positive the task is cancelled before its body starts.  Otherwise
    the timeout is a timer of the event loop: it fires only when the body
    has given control back to the loop, and the task, if it is not done by
    then, is cancelled and awaited. *)
Definition wait_for (co : coroutine) (timeout : Q) : outcome (pyval * Q) :=
  if Qlt_le_dec 0 timeout then
    match co with
    | Finishes c elapsed Busy => deliver c elapsed
    | Forever Busy => Diverge
    | Finishes c elapsed (Suspends r) =>
        if Qlt_le_dec elapsed timeout then deliver c elapsed
        else cancel_and_wait r
    | Forever (Suspends r) => cancel_and_wait r
    end
  else Throw timeout_exn.

(** ** core/aync_test_runner.py *)

(** The dictionary [run_single_test] returns, with its six fixed keys. *)
Record test_result := TestResult {
  input : pyval;
  expected : pyval;
  result : pyval;
  passed : bool;
  time : option Q;
  error : option string
}.

Definition timeout_message : string :=
  "TimeoutError: выполнение превысило лимит времени".

Definition run_single_test (user_func : pyval → coroutine)
    (input_data expected_output : pyval) (timeout : Q) : outcome test_result :=
  match wait_for (user_func input_data) timeout with
  | Ret (result, duration) =>
      let passed := py_eq result expected_output in
      Ret {| input := input_data; expected := expected_output;
             result := result; passed := passed;
             time := Some duration; error := None |}
  | Throw e =>
      if is_TimeoutError e then
        Ret {| input := input_data; expected := expected_output;
               result := PyNone; passed := false;
               time := None; error := Some timeout_message |}
      else if is_Exception e then
        Ret {| input := input_data; expected := expected_output;
               result := PyNone; passed := false;
               time := None; error := Some (format_exc e) |}
      else Throw e
  | Diverge => Diverge
  end.

(** *** asyncio.gather

    Each child is a future: pending ([None]) until the event loop completes
    it.  [sched] is the order in which the loop completes the children, any
    order at all; a future completes once, so a repeated index is ignored.
    The first child that raises makes [gather] raise; when the last child
    completes, the values are read off the children in their own order. *)

Definition invalid_state : exn :=
  {| cls := OtherException; str_e := "Result is not set.";
     format_exc := "asyncio.exceptions.InvalidStateError: Result is not set." |}.

(** [[fut.result() for fut in children]] *)
Fixpoint collect {A} (futs : list (option A)) : outcome (list A) :=
  match futs with
  | [] => Ret []
  | None :: _ => Throw invalid_state
  | Some a :: futs' =>
      match collect futs' with
      | Ret l => Ret (a :: l)
      | Throw e => Throw e
      | Diverge => Diverge
      end
  end.

Fixpoint gather_loop {A} (children : list (outcome A)) (sched : list nat)
    (futs : list (option A)) (nfinished : nat) : outcome (list A) :=
  match sched with
  | [] => Diverge
  | i :: sched' =>
      match futs !! i, children !! i with
      | Some None, Some (Ret a) =>
          let futs' := <[i := Some a]> futs in
          let nfinished' := S nfinished in
          if decide (nfinished' = length children) then collect futs'
          else gather_loop children sched' futs' nfinished'
      | Some None, Some (Throw e) => Throw e
      | Some None, Some Diverge => Diverge
      | _, _ => gather_loop children sched' futs nfinished
      end
  end.

Definition gather {A} (children : list (outcome A)) (sched : list nat)
    : outcome (list A) :=
  match children with
  | [] => Ret []
  | _ => gather_loop children sched (replicate (length children) None) 0
  end.

(** The default of [run_single_test]'s [timeout] parameter. *)
Definition default_timeout : Q := 3.

Definition run_all_tests (user_func : pyval → coroutine)
    (test_cases : list (pyval * pyval)) (sched : list nat)
    : outcome (list test_result) :=
  let tasks :=
    (λ '(inp, out), run_single_test user_func inp out default_timeout)
      <$> test_cases in
  gather tasks sched.

(** ** core/logic.py: the process-isolated runner *)

(** [Literal["result", "error", "timeout"]] *)
Inductive status := st_result | st_error | st_timeout.

Definition ProcessResult : Type := status * pyval.

(** *** multiprocessing.Queue

    Queue objects live in a store, indexed by identity.  What a queue holds
    is what its pipe holds: the messages that got there whole and, behind
    them, the head of a message whose writer died before the rest was
    written.  The log records the operations performed on the queues. *)

Inductive item :=
| Whole (m : ProcessResult)
| Torn (m : ProcessResult).

Definition message (it : item) : ProcessResult :=
  match it with Whole m | Torn m => m end.

Inductive event :=
| QNew (q : nat)
| QPut (q : nat) (m : ProcessResult)
| QGet (q : nat).

Record world := World {
  queues : gmap nat (list item);
  log : list event
}.

Definition Queue (w : world) : nat * world :=
  let q := fresh (dom (queues w)) in
  (q, {| queues := <[q := []]> (queues w); log := log w ++ [QNew q] |}).

(** The effect of [queue.put(m)] on the store, once the bytes of [m], all
    of them or a head only, are in the pipe. *)
Definition put (w : world) (qi : nat * item) : world :=
  {| queues := alter (λ l, l ++ [qi.2]) qi.1 (queues w);
     log := log w ++ [QPut qi.1 (message qi.2)] |}.

(** [queue.empty()]: there is nothing to read in the pipe. *)
Definition empty (q : nat) (w : world) : bool :=
  match queues w !! q with
  | Some (_ :: _) => false
  | _ => true
  end.

(** [queue.get()] blocks on an empty queue, and on a message of which only
    the head has arrived. *)
Definition get (q : nat) (w : world) : outcome ProcessResult * world :=
  match queues w !! q with
  | Some (Whole m :: l) =>
      (Ret m, {| queues := <[q := l]> (queues w); log := log w ++ [QGet q] |})
  | _ => (Diverge, w)
  end.

(** *** The worker process

    What a child process does: when [process_data] is done and the worker
    has put its messages (seconds after [p.start()], [None] for never), the
    messages, and whether the feeder thread of the queue can write them to
    the pipe without a reader at the other end, which it can when they fit
    the buffer of the pipe.  A process does not exit before its feeder
    thread has written everything. *)
Record worker := Worker {
  finishes : option Q;
  puts : list (nat * ProcessResult);
  flushes : bool
}.

(** When the worker exits on its own, [None] for never. *)
Definition exits (wk : worker) : option Q :=
  if flushes wk then finishes wk else None.

(** A started [multiprocessing.Process]: its target, the time of the first
    [terminate()] and the time the process needs to die once signalled
    ([None] when it ignores or blocks the signal). *)
Record process := Process {
  target : worker;
  kill_latency : option Q;
  sigterm : option Q
}.

Definition opt_min (a b : option Q) : option Q :=
  match a, b with
  | Some x, Some y => Some (Qmin x y)
  | Some x, None | None, Some x => Some x
  | None, None => None
  end.

Definition killed (p : process) : option Q :=
  match sigterm p, kill_latency p with
  | Some s, Some k => Some (s + k)%Q
  | _, _ => None
  end.

(** The time at which the process is gone. *)
Definition death (p : process) : option Q := opt_min (exits (target p)) (killed p).

Definition is_alive (p : process) (now : Q) : bool :=
  match death p with
  | Some d => if Qlt_le_dec now d then true else false
  | None => true
  end.

(** [p.terminate()] at time [now]. *)
Definition terminate (p : process) (now : Q) : process :=
  match sigterm p with
  | Some _ => p
  | None => if is_alive p now then
              {| target := target p; kill_latency := kill_latency p; sigterm := Some now |}
            else p
  end.

(** The time at which [p.join(timeout)], called at [now], returns. *)
Definition join_for (p : process) (now timeout : Q) : Q :=
  match death p with
  | Some d => Qmax now (Qmin d (now + timeout))
  | None => Qmax now (now + timeout)
  end.

(** The time at which [p.join()], called at [now], returns; [None] when the
    process never goes away. *)
Definition join (p : process) (now : Q) : option Q :=
  match death p with
  | Some d => Some (Qmax now d)
  | None => None
  end.

(** [t] is no later than the death of the process. *)
Definition in_its_life (p : process) (t : Q) : bool :=
  match death p with
  | Some d => Qle_bool t d
  | None => true
  end.

(** What the worker has left in the pipes by [now], read once it is gone:
    nothing if it was killed before it put its messages; its messages
    whole if the feeder thread could write them out; their head only if it
    could not and the process was killed over it. *)
Definition delivered (p : process) (now : Q) : list (nat * item) :=
  match finishes (target p) with
  | Some t =>
      if in_its_life p t && Qle_bool t now then
        (λ qm, (qm.1, if flushes (target p) then Whole qm.2 else Torn qm.2))
          <$> puts (target p)
      else []
  | None => []
  end.

(** The grace added to the deadline in [thread.join(timeout_sec + 0.1)]. *)
Definition grace : Q := 1 # 10.

Definition no_result_message : string := "Нет результата".
Definition timeout_exceeded_message : string := "Превышено время выполнения".

(** What a call of [run_with_timeout] amounts to: the returned tuple with
    the time (seconds after [p.start()]) at which the caller gets it back, and
    the store the call leaves behind. *)
Record run := Run {
  returned : outcome (ProcessResult * Q);
  after : world
}.

Section logic.

(** [from user_code import process_data]: the function found in
    [user_code.py], the way its process reacts to a termination signal, and
    the messages that, pickled, fit the buffer of the pipe of a queue. *)
Variable process_data : pyval → coroutine.
Variable worker_kill_latency : option Q.
Variable fits_pipe : ProcessResult → bool.

Definition run_user_code_in_process (queue : nat) (user_code_str : string)
    (input_data : pyval) : worker :=
  match process_data input_data with
  | Finishes (Return result) t _ =>
      {| finishes := Some t; puts := [(queue, (st_result, result))];
         flushes := fits_pipe (st_result, result) |}
  | Finishes (Raise e) t _ =>
      if is_Exception e then
        {| finishes := Some t; puts := [(queue, (st_error, PyStr (str_e e)))];
           flushes := fits_pipe (st_error, PyStr (str_e e)) |}
      else {| finishes := Some t; puts := []; flushes := true |}
  | Forever _ => {| finishes := None; puts := []; flushes := true |}
  end.

(** The watchdog thread: the process as it leaves it, and the time at which
    the thread is done ([None]: its last [p.join()] never returns). *)
Definition join_process (p : process) (timeout_sec : Q) : process * option Q :=
  let t1 := join_for p 0 timeout_sec in
  if is_alive p t1 then
    let p := terminate p t1 in
    (p, join p t1)
  else (p, Some t1).

(** [thread.join(timeout)] for a thread that is done at [done]. *)
Definition thread_join (done : option Q) (timeout : Q) : Q :=
  match done with
  | Some f => Qmax 0 (Qmin f timeout)
  | None => Qmax 0 timeout
  end.

Definition run_with_timeout (user_code_str : string) (input_data : pyval)
    (timeout_sec : Q) (w : world) : run :=
  let '(queue, w) := Queue w in
  let p := {| target := run_user_code_in_process queue user_code_str input_data;
              kill_latency := worker_kill_latency; sigterm := None |} in
  let '(p, thread) := join_process p timeout_sec in
  let t2 := thread_join thread (timeout_sec + grace) in
  if is_alive p t2 then
    let p := terminate p t2 in
    match join p t2 with
    | Some t3 =>
        {| returned := Ret ((st_timeout, PyStr timeout_exceeded_message), t3);
           after := foldl put w (delivered p t3) |}
    | None => {| returned := Diverge; after := w |}
    end
  else
    let w := foldl put w (delivered p t2) in
    if negb (empty queue w) then
      let '(m, w) := get queue w in
      {| returned := match m with
                     | Ret m => Ret (m, t2)
                     | Throw e => Throw e
                     | Diverge => Diverge
                     end;
         after := w |}
    else
      {| returned := Ret ((st_error, PyStr no_result_message), t2); after := w |}.

End logic.

(** ** core/logic.py: the orchestrator *)

(** What [exec] leaves in [local_vars]: an [async def] function, or any
    other object (a plain function, a class, a value). *)
Inductive pyobj :=
| CoroutineFunction (f : pyval → coroutine)
| OtherObject.

(** The tuple [validate_user_code] gives back (or the exception it lets
    through), and the number of times it has run the harness. *)
Record validation := Validation {
  verdict : outcome (bool * string * option Z);
  harness_runs : nat
}.

Definition nl : string := String (Ascii.ascii_of_nat 10) EmptyString.

(** ["\n".join(lines)] *)
Fixpoint join_lines (lines : list string) : string :=
  match lines with
  | [] => ""
  | [l] => l
  | l :: rest => l +:+ nl +:+ join_lines rest
  end.

(** [f"{lineno}"] for an [Optional[int]]. *)
Definition fmt_lineno (lineno : option Z) : string :=
  match lineno with
  | Some n => pretty n
  | None => "None"
  end.

Definition not_async_message : string :=
  "Функция process_data должна быть асинхронной (async def)".

Section orchestrator.

(** The builtins the orchestrator relies on: [exec(user_code, {}, local_vars)]
    with the [local_vars] it fills, [str(v)], which raises on some values (a
    [ValueError] on an integer of more than 4300 digits, a [RecursionError]
    on a deeply nested list), and the [:.3f] format of a float. *)
Variable exec : string → outcome (gmap string pyobj).
Variable py_str : pyval → outcome string.
Variable fmt_3f : Q → string.

(** The lines of the report about the [i]-th result.  The f-string of a
    failed case without a trace formats the expected value, then the
    obtained one. *)
Definition report_lines (i : nat) (res : test_result) : outcome (list string) :=
  let status := if passed res then "✅" else "❌" in
  let time_info :=
    match time res with
    | Some t => if Qeq_bool t 0 then "—" else fmt_3f t +:+ " с"
    | None => "—"
    end in
  let first := "Тест " +:+ pretty i +:+ ": " +:+ status +:+ " Время: " +:+ time_info in
  if passed res then Ret [first]
  else
    match error res with
    | Some (String c e) => Ret [first; "Ошибка:" +:+ nl +:+ String c e]
    | _ =>
        match py_str (expected res) with
        | Ret wanted =>
            match py_str (result res) with
            | Ret got =>
                Ret [first; "Ожидалось: " +:+ wanted +:+ ", получили: " +:+ got]
            | Throw e => Throw e
            | Diverge => Diverge
            end
        | Throw e => Throw e
        | Diverge => Diverge
        end
    end.

(** The loop over [enumerate(results, 1)]; it stands outside every [try]. *)
Fixpoint report_from (i : nat) (results : list test_result) : outcome (list string) :=
  match results with
  | [] => Ret []
  | res :: rest =>
      match report_lines i res with
      | Ret lines =>
          match report_from (S i) rest with
          | Ret more => Ret (lines ++ more)
          | Throw e => Throw e
          | Diverge => Diverge
          end
      | Throw e => Throw e
      | Diverge => Diverge
      end
  end.

Definition validate_user_code (user_code : string)
    (test_cases : list (pyval * pyval)) (sched : list nat) : validation :=
  match exec user_code with
  | Throw e =>
      match cls e with
      | SyntaxError msg lineno =>
          {| verdict := Ret (false, "Синтаксическая ошибка: " +:+ msg
                                      +:+ " в строке " +:+ fmt_lineno lineno,
                             lineno);
             harness_runs := 0 |}
      | _ =>
          if is_Exception e then
            {| verdict := Ret (false, "Ошибка при загрузке функции: " +:+ str_e e,
                               None);
               harness_runs := 0 |}
          else {| verdict := Throw e; harness_runs := 0 |}
      end
  | Diverge => {| verdict := Diverge; harness_runs := 0 |}
  | Ret local_vars =>
      match local_vars !! "process_data" with
      | Some (CoroutineFunction user_func) =>
          match run_all_tests user_func test_cases sched with
          | Throw e =>
              if is_Exception e then
                {| verdict := Ret (false, "Ошибка выполнения тестов: " +:+ str_e e,
                                   None);
                   harness_runs := 1 |}
              else {| verdict := Throw e; harness_runs := 1 |}
          | Diverge => {| verdict := Diverge; harness_runs := 1 |}
          | Ret results =>
              let all_passed := forallb passed results in
              match report_from 1 results with
              | Ret lines =>
                  {| verdict := Ret (all_passed, join_lines lines, None);
                     harness_runs := 1 |}
              | Throw e => {| verdict := Throw e; harness_runs := 1 |}
              | Diverge => {| verdict := Diverge; harness_runs := 1 |}
              end
          end
      | _ => {| verdict := Ret (false, not_async_message, None);
                harness_runs := 0 |}
      end
  end.

End orchestrator.

(** ** user_code.py *)

Module user_code.

(** [process_data] on a list of integers:
    [sum(x ** 2 for x in data if x % 2 == 0)]. *)
Definition process_data (data : list Z) : Z :=
  foldl Z.add 0%Z ((λ x, x ^ 2)%Z <$> filter (λ x, (x mod 2 = 0)%Z) data).

End user_code.

(** ** main.py: the positions of the matches of a pattern *)

(** [f"{i + 1}.{match.start()}"]: a position of the text widget, a line
    counted from one and a column counted from zero. *)
Definition position (line col : nat) : string :=
  pretty line +:+ "." +:+ pretty col.

Section main.

(** [text.splitlines()], and the [(match.start(), match.end())] of the
    matches [re.finditer(pattern, line)] yields, which raises on a pattern
    that does not compile. *)
Variable splitlines : string → list string.
Variable finditer : string → string → outcome (list (nat * nat)).

(** The loop over [enumerate(lines)], from the line of index [i] on. *)
Fixpoint search_lines (pattern : string) (i : nat) (lines : list string)
    : outcome (list (string * string)) :=
  match lines with
  | [] => Ret []
  | line :: rest =>
      match finditer pattern line with
      | Ret found =>
          match search_lines pattern (S i) rest with
          | Ret matches =>
              Ret (((λ m, (position (i + 1) m.1, position (i + 1) m.2)) <$> found)
                     ++ matches)
          | Throw e => Throw e
          | Diverge => Diverge
          end
      | Throw e => Throw e
      | Diverge => Diverge
      end
  end.

Definition search_re (pattern text : string) : outcome (list (string * string)) :=
  search_lines pattern 0 (splitlines text).

End main.

(** * Vocabulary of the properties *)

(** The record of a case whose call timed out. *)
Definition timed_out (input_data expected_output : pyval) : test_result :=
  {| input := input_data; expected := expected_output; result := PyNone;
     passed := false; time := None; error := Some timeout_message |}.

(** The record of a case whose call raised [e]. *)
Definition failed (input_data expected_output : pyval) (e : exn) : test_result :=
  {| input := input_data; expected := expected_output; result := PyNone;
     passed := false; time := None; error := Some (format_exc e) |}.


(** The coroutine suspends at its awaits. *)
Definition cooperative (co : coroutine) : Prop :=
  match co with
  | Finishes _ _ yields | Forever yields =>
      match yields with Suspends _ => True | Busy => False end
  end.


Definition sum_of_squares_input : pyval :=
  PyList [PyInt 1; PyInt 2; PyInt 3; PyInt 4].

(** A function that answers the float [20.0] after half a second. *)
Definition returns_float_20 : pyval → coroutine :=
  λ _, Finishes (Return (PyFloat float_20)) (1 # 2) (Suspends Unwinds).



(** The futures of [gather] that are done hold the values of their
    children. *)
Definition done_sound {A} (futs : list (option A)) (children : list (outcome A))
    : Prop :=
  Forall2 (λ fut child, ∀ a, fut = Some a → child = Ret a) futs children.

(** A future is pending, or holds the value its child returns. *)
Definition done_agree {A} (futs : list (option A)) (vals : list A) : Prop :=
  Forall2 (λ fut v, fut = None ∨ fut = Some v) futs vals.

(** The number of futures that are done. *)
Fixpoint nfilled {A} (futs : list (option A)) : nat :=
  match futs with
  | [] => 0
  | Some _ :: futs' => S (nfilled futs')
  | None :: futs' => nfilled futs'
  end.

(** The call stays inside its own task: it returns, times out, or raises
    an exception derived from [Exception]. *)
Definition contained (co : coroutine) (timeout : Q) : Prop :=
  match wait_for co timeout with
  | Ret _ => True
  | Throw e => is_Exception e = true
  | Diverge => False
  end.

(** [sys.exit(1)] *)
Definition system_exit : exn :=
  {| cls := BaseOnly; str_e := "1"; format_exc := "SystemExit: 1" |}.

(** A function that echoes its input, and exits on the input [2]. *)
Definition exits_on_2 : pyval → coroutine :=
  λ v, if py_eq v (PyInt 2) then Finishes (Raise system_exit) 0 (Suspends Unwinds)
       else Finishes (Return v) 0 (Suspends Unwinds).



(** A function that echoes its input after half a second. *)
Definition echo : pyval → coroutine :=
  λ v, Finishes (Return v) (1 # 2) (Suspends Unwinds).

(** A function that echoes its input, and divides by zero on the input [2]. *)
Definition zero_division : exn :=
  {| cls := OtherException; str_e := "division by zero";
     format_exc := "ZeroDivisionError: division by zero" |}.

Definition fails_on_2 : pyval → coroutine :=
  λ v, if py_eq v (PyInt 2) then Finishes (Raise zero_division) 0 (Suspends Unwinds)
       else Finishes (Return v) 0 (Suspends Unwinds).

Definition two_cases : list (pyval * pyval) :=
  [(PyInt 1, PyInt 1); (PyInt 2, PyInt 3)].

(** The store before any queue exists. *)
Definition world0 : world := {| queues := ∅; log := [] |}.

(** A function that never finishes ([while True: await asyncio.sleep(1)]). *)
Definition loops_forever : pyval → coroutine := λ _, Forever (Suspends Unwinds).

(** A function that leaves through [sys.exit(1)] after half a second. *)
Definition raises_system_exit : pyval → coroutine :=
  λ _, Finishes (Raise system_exit) (1 # 2) (Suspends Unwinds).

(** A function that raises [Exception("Нет результата")] after half a
    second. *)
Definition no_result_error : exn :=
  {| cls := OtherException; str_e := no_result_message;
     format_exc := "Exception: Нет результата" |}.

Definition raises_no_result : pyval → coroutine :=
  λ _, Finishes (Raise no_result_error) (1 # 2) (Suspends Unwinds).

(** A pipe that takes every message whole, and one with a buffer of
    64 KiB, too small for an integer of 2 ^ 19 bits or more. *)
Definition roomy : ProcessResult → bool := λ _, true.

Definition pipe_64k (m : ProcessResult) : bool :=
  match m.2 with
  | PyInt n => (Z.log2 (Z.abs n) <? 2 ^ 19)%Z
  | _ => true
  end.

(** The input [[2 ** 300000]], and what the function of [user_code.py]
    does with it: it returns its answer, [2 ** 600000], without ever
    suspending. *)
Definition huge_input : pyval := PyList [PyInt (2 ^ 300000)].

Definition squares_a_huge_number : pyval → coroutine :=
  λ _, Finishes (Return (PyInt (user_code.process_data [2 ^ 300000]%Z)))
         (1 # 10) Busy.

(** The five ways a call of [run_with_timeout] can go, with what each does
    to the store: the caller waits for ever for a worker that does not die;
    it reports a timeout, leaving what the worker has put unread; it finds
    the queue empty; it reads the one message; it waits for ever for the
    rest of a message of which only the head is in the pipe. *)
Inductive script :=
| Hangs
| TimesOut (t : Q) (unread : list item)
| NoResult (t : Q)
| Delivers (m : ProcessResult) (t : Q)
| Stuck (m : ProcessResult).

Definition play (sc : script) (w : world) : run :=
  let '(queue, w1) := Queue w in
  match sc with
  | Hangs => {| returned := Diverge; after := w1 |}
  | TimesOut t unread =>
      {| returned := Ret ((st_timeout, PyStr timeout_exceeded_message), t);
         after := foldl put w1 ((λ it, (queue, it)) <$> unread) |}
  | NoResult t =>
      {| returned := Ret ((st_error, PyStr no_result_message), t); after := w1 |}
  | Delivers m t =>
      {| returned := Ret (m, t); after := (get queue (put w1 (queue, Whole m))).2 |}
  | Stuck m =>
      {| returned := Diverge; after := put w1 (queue, Torn m) |}
  end.

Definition script_ok (sc : script) : Prop :=
  match sc with
  | TimesOut _ unread => length unread ≤ 1
  | _ => True
  end.

Definition is_put (ev : event) : bool :=
  match ev with QPut _ _ => true | _ => false end.

Definition is_get (ev : event) : bool :=
  match ev with QGet _ => true | _ => false end.

Definition event_queue (ev : event) : nat :=
  match ev with QNew q | QPut q _ | QGet q => q end.

Definition writes (ops : list event) : nat := length (List.filter is_put ops).
Definition reads (ops : list event) : nat := length (List.filter is_get ops).

(** What a call that takes the store from [w] to [w'] did with its queue
    [q]: the queue did not exist before and exists after; every queue that
    existed before holds what it held; and the operations of the call are the
    creation of [q] followed by at most one [put] and at most one [get], all
    of them on [q]. *)
Definition single_use (w w' : world) (q : nat) : Prop :=
  (q ∉ dom (queues w))
  ∧ (q ∈ dom (queues w'))
  ∧ (∀ q', q' ∈ dom (queues w) → queues w' !! q' = queues w !! q')
  ∧ ∃ ops, log w' = log w ++ QNew q :: ops
           ∧ Forall (λ ev, event_queue ev = q) ops
           ∧ writes ops ≤ 1 ∧ reads ops ≤ 1.

(** A loader for three sources: one that defines a plain [def], one that
    defines nothing, and one whose second line does not parse. *)
Definition plain_def_source : string := "def process_data(data): return 20".
Definition empty_source : string := "".
Definition broken_source : string := "x = 1" +:+ nl +:+ "y = (".

Definition syntax_error_line_2 : exn :=
  {| cls := SyntaxError "'(' was never closed" (Some 2%Z);
     str_e := "'(' was never closed (<string>, line 2)";
     format_exc := "SyntaxError: '(' was never closed" |}.

Definition exec_sample (src : string) : outcome (gmap string pyobj) :=
  if String.eqb src plain_def_source then Ret {[ "process_data" := OtherObject ]}
  else if String.eqb src empty_source then Ret ∅
  else Throw syntax_error_line_2.

(** The strings without a dot. *)
Definition dot : Ascii.ascii := Ascii.ascii_of_nat 46.

Fixpoint no_dot (s : string) : Prop :=
  match s with
  | EmptyString => True
  | String c s' => c ≠ dot ∧ no_dot s'
  end.

(** A loader whose every source defines the echoing [async def], and one
    whose every source leaves through [sys.exit(1)]. *)
Definition exec_echo (src : string) : outcome (gmap string pyobj) :=
  Ret {[ "process_data" := CoroutineFunction echo ]}.





(** [str] on the integers and the strings, with the limit of 4300 digits on
    the integers it converts. *)
Definition int_too_large : exn :=
  {| cls := OtherException;
     str_e := "Exceeds the limit (4300 digits) for integer string conversion";
     format_exc := "ValueError: Exceeds the limit (4300 digits) for integer string conversion" |}.

Definition str_sample (v : pyval) : outcome string :=
  match v with
  | PyInt n => if (Z.abs n <? 10 ^ 4300)%Z then Ret (pretty n) else Throw int_too_large
  | PyStr s => Ret s
  | _ => Ret "..."
  end.

(** The records of two cases, the second of which did not pass. *)
Definition sample_results : list test_result :=
  [ {| input := PyInt 1; expected := PyInt 1; result := PyInt 1; passed := true;
       time := Some (1 # 2); error := None |};
    {| input := PyInt 2; expected := PyInt 3; result := PyInt 2; passed := false;
       time := Some (1 # 2); error := None |} ].

(** A case whose expected value has 4301 digits. *)
Definition huge_expectation : list (pyval * pyval) :=
  [(PyInt 1, PyInt (10 ^ 4300))].

Definition passing_cases : list (pyval * pyval) :=
  [(PyInt 1, PyInt 1); (PyInt 2, PyFloat (S754_finite false 1 1))].

(** A text of at most one line, and a pattern that matches the first
    character of every line that has one. *)
Definition splitlines_sample (text : string) : list string :=
  if String.eqb text "" then [] else [text].

Definition finditer_sample (pattern line : string) : outcome (list (nat * nat)) :=
  if String.eqb line "" then Ret [] else Ret [(0, 1)].

(** * Properties *)

(** ** The model on small inputs *)

Example py_eq_float_int : py_eq (PyFloat float_20) (PyInt 20) = true.
Proof. reflexivity. Qed.

Example py_eq_bool_int : py_eq (PyBool true) (PyInt 1) = true.
Proof. reflexivity. Qed.

Example py_eq_nan : py_eq (PyFloat S754_nan) (PyFloat S754_nan) = false.
Proof. reflexivity. Qed.

Example py_eq_list_tuple : py_eq (PyList [PyInt 1]) (PyTuple [PyInt 1]) = false.
Proof. reflexivity. Qed.

Example py_eq_int_str : py_eq (PyInt 20) (PyStr "20") = false.
Proof. reflexivity. Qed.

Example run_all_tests_either_order :
  run_all_tests echo two_cases [1; 0] = run_all_tests echo two_cases [0; 1].
Proof. reflexivity. Qed.

Example run_with_timeout_in_time :
  returned (run_with_timeout echo (Some 0%Q) roomy "" sum_of_squares_input 1 world0)
  = Ret ((st_result, sum_of_squares_input), 1 # 2).
Proof. by vm_compute. Qed.

Example process_data_huge :
  Z.log2 (user_code.process_data [2 ^ 300000]%Z) = 600000%Z
  ∧ pipe_64k (st_result, PyInt (user_code.process_data [2 ^ 300000]%Z)) = false.
Proof. by vm_compute. Qed.

Example validate_user_code_report :
  validate_user_code exec_echo str_sample (λ _, "0.500") "" two_cases [1; 0]
  = {| verdict := Ret (false,
                       "Тест 1: ✅ Время: 0.500 с" +:+ nl
                         +:+ "Тест 2: ❌ Время: 0.500 с" +:+ nl
                         +:+ "Ожидалось: 3, получили: 2",
                       None);
       harness_runs := 1 |}.
Proof. by vm_compute. Qed.

Example validate_user_code_report_raises :
  validate_user_code exec_echo str_sample (λ _, "0.500") "" huge_expectation [0]
  = {| verdict := Throw int_too_large; harness_runs := 1 |}.
Proof. by vm_compute. Qed.

(** ** The verdict of a single test *)

(** C1, as stated, fails: a returned [20.0] passes against an expected [20],
    although the two values differ. *)
Lemma float_20_passes_against_int_20 :
  run_single_test returns_float_20 sum_of_squares_input (PyInt 20) default_timeout
  = Ret {| input := sum_of_squares_input; expected := PyInt 20;
           result := PyFloat float_20; passed := true;
           time := Some (1 # 2); error := None |}
  ∧ PyFloat float_20 ≠ PyInt 20.
Proof. split; [reflexivity | discriminate]. Qed.

(** C1, amended: the [passed] flag of a result is true exactly when the call
    completed (no timeout, no exception) and the returned value equals the
    expected one under Python's [==], which compares numbers by value across
    [bool], [int] and [float]. *)
Theorem run_single_test_passed_iff user_func input_data expected_output timeout r :
  run_single_test user_func input_data expected_output timeout = Ret r →
  passed r = true ↔
  ∃ v t, wait_for (user_func input_data) timeout = Ret (v, t)
         ∧ py_eq v expected_output = true.
Proof.
  unfold run_single_test.
  destruct (wait_for (user_func input_data) timeout) as [[v t]|e|]; [| |done].
  - intros [= <-]; simpl. split; [by eauto|].
    by intros (v' & t' & [= <- <-] & Heq).
  - destruct (is_TimeoutError e); [|destruct (is_Exception e); [|done]];
      intros [= <-]; simpl; (split; [done|]); by intros (? & ? & ? & ?).
Qed.

Lemma run_single_test_passed_iff_witness :
  true = true ↔
  ∃ v t, wait_for (returns_float_20 sum_of_squares_input) default_timeout = Ret (v, t)
         ∧ py_eq v (PyInt 20) = true.
Proof.
  exact (run_single_test_passed_iff returns_float_20 sum_of_squares_input
           (PyInt 20) default_timeout _ eq_refl).
Defined.




(** ** The harness: one result per case, in the order of the cases *)

Lemma run_single_test_case user_func input_data expected_output timeout r :
  run_single_test user_func input_data expected_output timeout = Ret r →
  input r = input_data ∧ expected r = expected_output.
Proof.
  unfold run_single_test.
  destruct (wait_for (user_func input_data) timeout) as [[v t]|e|]; [| |done].
  - by intros [= <-].
  - destruct (is_TimeoutError e); [|destruct (is_Exception e); [|done]];
      by intros [= <-].
Qed.

Section gather_facts.
Context {A : Type}.
Implicit Types (futs : list (option A)) (children : list (outcome A)).
Implicit Types (vals : list A) (sched : list nat).

Lemma collect_Ret futs vals : collect futs = Ret vals → futs = Some <$> vals.
Proof.
  revert vals. induction futs as [|[a|] futs IH]; intros vals; simpl.
  - by intros [= <-].
  - destruct (collect futs) as [l| |]; [|done..].
    intros [= <-]. by rewrite (IH l).
  - done.
Qed.

Lemma collect_fmap_Some vals : collect (Some <$> vals) = Ret vals.
Proof.
  induction vals as [|v vals IH]; [done|].
  rewrite fmap_cons. simpl. by rewrite IH.
Qed.

Lemma done_sound_replicate children :
  done_sound (replicate (length children) None) children.
Proof. induction children; constructor; [done|assumption]. Qed.

Lemma done_sound_insert futs children i a :
  done_sound futs children → children !! i = Some (Ret a) →
  done_sound (<[i := Some a]> futs) children.
Proof.
  intros Hs Hi. rewrite <- (list_insert_id children i (Ret a)) by done.
  apply Forall2_insert; [done|]. by intros ? [= <-].
Qed.

Lemma done_sound_all futs children vals :
  done_sound futs children → futs = Some <$> vals → children = Ret <$> vals.
Proof.
  intros Hs ->. revert children Hs.
  induction vals as [|v vals IH]; intros children Hs; inversion Hs; subst; simpl.
  - done.
  - f_equal; [by eauto | by apply IH].
Qed.

Lemma gather_loop_sound children sched futs n vals :
  done_sound futs children →
  gather_loop children sched futs n = Ret vals →
  children = Ret <$> vals.
Proof.
  revert futs n. induction sched as [|i sched IH]; intros futs n Hs; simpl; [done|].
  destruct (futs !! i) as [[a|]|] eqn:Hf; [by apply IH..| |by apply IH].
  destruct (children !! i) as [[a|e|]|] eqn:Hc; [|done|done|by apply IH].
  case_decide.
  - intros Hcol%collect_Ret. eapply done_sound_all; [|done].
    by apply done_sound_insert.
  - apply IH. by apply done_sound_insert.
Qed.

Lemma gather_sound children sched vals :
  gather children sched = Ret vals → children = Ret <$> vals.
Proof.
  unfold gather. destruct children as [|c children]; [by intros [= <-]|].
  apply gather_loop_sound, done_sound_replicate.
Qed.

Lemma nfilled_le futs : nfilled futs ≤ length futs.
Proof. induction futs as [|[a|] futs IH]; simpl; lia. Qed.

Lemma nfilled_insert futs i a :
  futs !! i = Some None → nfilled (<[i := Some a]> futs) = S (nfilled futs).
Proof.
  revert i. induction futs as [|[b|] futs IH]; intros [|i]; simpl; try done.
  - intros Hi. by rewrite IH.
  - intros Hi. by apply IH.
Qed.

Lemma nfilled_none_pending futs :
  (∀ i, futs !! i ≠ Some None) → nfilled futs = length futs.
Proof.
  induction futs as [|[a|] futs IH]; intros Hp; simpl; [done| |].
  - f_equal. apply IH. intros i. apply (Hp (S i)).
  - by destruct (Hp 0).
Qed.

Lemma done_agree_full futs vals :
  done_agree futs vals → nfilled futs = length futs → futs = Some <$> vals.
Proof.
  induction 1 as [|fut v futs vals [->| ->] _ IH]; simpl; [done| |].
  - intros Hn. pose proof (nfilled_le futs) as Hle. lia.
  - intros [= Hn]. by rewrite IH.
Qed.

Lemma done_agree_insert futs vals i v :
  done_agree futs vals → vals !! i = Some v →
  done_agree (<[i := Some v]> futs) vals.
Proof.
  intros Ha Hi. rewrite <- (list_insert_id vals i v) by done.
  apply Forall2_insert; [done|by right].
Qed.

Lemma done_agree_replicate vals : done_agree (replicate (length vals) None) vals.
Proof. induction vals; constructor; [by left|assumption]. Qed.

Lemma nfilled_replicate n : nfilled (replicate n (@None A)) = 0.
Proof. by induction n. Qed.

(** When every child returns, and the schedule completes every future that
    is still pending, the loop ends with the values in the children's order. *)
Lemma gather_loop_complete vals sched futs :
  done_agree futs vals →
  nfilled futs < length vals →
  (∀ i, futs !! i = Some None → i ∈ sched) →
  gather_loop (Ret <$> vals) sched futs (nfilled futs) = Ret vals.
Proof.
  revert futs. induction sched as [|i sched IH]; intros futs Ha Hn Hcov.
  - exfalso. assert (Hlen : length futs = length vals) by by eapply Forall2_length.
    rewrite nfilled_none_pending in Hn; [lia|].
    intros i Hi. by apply Hcov, elem_of_nil in Hi.
  - simpl. destruct (futs !! i) as [[a|]|] eqn:Hf.
    + apply IH; [done..|]. intros j Hj.
      specialize (Hcov j Hj). apply elem_of_cons in Hcov as [->|]; [congruence|done].
    + assert (Hi : i < length vals).
      { rewrite <- (Forall2_length _ _ _ Ha). by eapply lookup_lt_Some. }
      destruct (lookup_lt_is_Some_2 vals i Hi) as [v Hv].
      rewrite list_lookup_fmap, Hv; simpl. rewrite length_fmap.
      pose proof (done_agree_insert _ _ _ _ Ha Hv) as Ha'.
      pose proof (nfilled_insert _ _ v Hf) as Hn'.
      case_decide as Hfull.
      * rewrite (done_agree_full _ _ Ha'); [apply collect_fmap_Some|].
        rewrite length_insert, Hn', Hfull. symmetry. by eapply Forall2_length.
      * rewrite <- Hn'. apply IH; [done|lia|].
        intros j Hj. destruct (decide (i = j)) as [<-|Hij].
        { rewrite list_lookup_insert_eq in Hj; [done|by eapply lookup_lt_Some]. }
        rewrite list_lookup_insert_ne in Hj by done.
        specialize (Hcov j Hj). by apply elem_of_cons in Hcov as [->|].
    + apply IH; [done..|]. intros j Hj.
      specialize (Hcov j Hj). apply elem_of_cons in Hcov as [->|]; [congruence|done].
Qed.

Lemma gather_complete vals sched :
  (∀ i, i < length vals → i ∈ sched) →
  gather (Ret <$> vals) sched = Ret vals.
Proof.
  intros Hcov. unfold gather. destruct vals as [|v vals]; [done|].
  rewrite fmap_cons, <- fmap_cons, length_fmap.
  pose proof (nfilled_replicate (length (v :: vals))) as Hz.
  rewrite <- Hz at 1. apply gather_loop_complete.
  - apply done_agree_replicate.
  - rewrite nfilled_replicate. simpl. lia.
  - intros i Hi. apply Hcov. apply lookup_lt_Some in Hi.
    by rewrite length_replicate in Hi.
Qed.

End gather_facts.

Lemma run_single_test_contained user_func input_data expected_output timeout :
  contained (user_func input_data) timeout →
  ∃ r, run_single_test user_func input_data expected_output timeout = Ret r
       ∧ ∀ e, wait_for (user_func input_data) timeout = Throw e →
              r = if is_TimeoutError e
                  then timed_out input_data expected_output
                  else failed input_data expected_output e.
Proof.
  unfold contained, run_single_test.
  destruct (wait_for (user_func input_data) timeout) as [[v t]|e|]; [| |done].
  - intros _. eexists; split; [done|]. by intros e [=].
  - intros He. destruct (is_TimeoutError e) eqn:Ht.
    + eexists; split; [done|]. intros e' [= <-]. by rewrite Ht.
    + rewrite He. eexists; split; [done|]. intros e' [= <-]. by rewrite Ht.
Qed.

Lemma all_tasks_return {C R} (task : C → outcome R) (P : C → R → Prop) cases :
  (∀ c, c ∈ cases → ∃ r, task c = Ret r ∧ P c r) →
  ∃ vals, task <$> cases = Ret <$> vals
          ∧ Forall2 (λ c r, task c = Ret r ∧ P c r) cases vals.
Proof.
  induction cases as [|c cases IH]; intros Hall.
  - exists []. by split; [|constructor].
  - destruct (Hall c) as (r & Hr & HP); [by left|].
    destruct IH as (vals & Heq & HF); [by intros c' Hc'; apply Hall; right|].
    exists (r :: vals). split; [by rewrite !fmap_cons, Hr, Heq|].
    by constructor.
Qed.

Lemma run_all_tests_returns user_func test_cases sched :
  (∀ i, i < length test_cases → i ∈ sched) →
  (∀ inp out, (inp, out) ∈ test_cases →
     contained (user_func inp) default_timeout) →
  ∃ results,
    run_all_tests user_func test_cases sched = Ret results
    ∧ Forall2 (λ c r,
        run_single_test user_func c.1 c.2 default_timeout = Ret r
        ∧ ∀ e, wait_for (user_func c.1) default_timeout = Throw e →
               r = if is_TimeoutError e then timed_out c.1 c.2
                   else failed c.1 c.2 e)
        test_cases results.
Proof.
  intros Hcov Hin. unfold run_all_tests.
  destruct (all_tasks_return
    (λ '(inp, out), run_single_test user_func inp out default_timeout)
    (λ c r, ∀ e, wait_for (user_func c.1) default_timeout = Throw e →
                 r = if is_TimeoutError e then timed_out c.1 c.2
                     else failed c.1 c.2 e)
    test_cases) as (vals & Heq & HF).
  { intros [inp out] Hc. apply run_single_test_contained. by eapply Hin. }
  exists vals. split.
  - rewrite Heq. apply gather_complete.
    intros i Hi. apply Hcov. by rewrite (Forall2_length _ _ _ HF).
  - eapply Forall2_impl; [exact HF|]. by intros [inp out] r.
Qed.

(** C4: the report of [run_all_tests] has exactly one result per case, and
    its i-th result is the result of the i-th case, with that case's input
    and expected value, whatever the order in which the tasks complete; and
    the harness does return a report once the event loop has completed every
    task and every call stayed inside its task. *)
Theorem run_all_tests_in_order user_func test_cases sched :
  (∀ results,
     run_all_tests user_func test_cases sched = Ret results →
     length results = length test_cases ∧
     ∀ i inp out, test_cases !! i = Some (inp, out) →
       ∃ r, results !! i = Some r ∧ input r = inp ∧ expected r = out)
  ∧ ((∀ i, i < length test_cases → i ∈ sched) →
     (∀ inp out, (inp, out) ∈ test_cases →
        contained (user_func inp) default_timeout) →
     ∃ results, run_all_tests user_func test_cases sched = Ret results).
Proof.
  split.
  - unfold run_all_tests. intros results Hall%gather_sound. split.
    + apply (f_equal length) in Hall. by rewrite !length_fmap in Hall.
    + intros i inp out Hi. apply (f_equal (λ l, l !! i)) in Hall.
      rewrite !list_lookup_fmap, Hi in Hall; simpl in Hall.
      destruct (results !! i) as [r|]; [|done].
      injection Hall as Hr. exists r.
      destruct (run_single_test_case _ _ _ _ _ Hr) as [? ?]. by eauto.
  - intros Hcov Hin.
    destruct (run_all_tests_returns _ _ _ Hcov Hin) as (results & Hr & _).
    by exists results.
Qed.

Lemma run_all_tests_in_order_witness :
  (length [TestResult (PyInt 1) (PyInt 1) (PyInt 1) true (Some (1 # 2)) None;
           TestResult (PyInt 2) (PyInt 3) (PyInt 2) false (Some (1 # 2)) None]
   = length two_cases
   ∧ ∀ i inp out, two_cases !! i = Some (inp, out) →
     ∃ r, [TestResult (PyInt 1) (PyInt 1) (PyInt 1) true (Some (1 # 2)) None;
           TestResult (PyInt 2) (PyInt 3) (PyInt 2) false (Some (1 # 2)) None]
            !! i = Some r
          ∧ input r = inp ∧ expected r = out)
  ∧ ∃ results, run_all_tests echo two_cases [1; 0] = Ret results.
Proof.
  split.
  - apply (proj1 (run_all_tests_in_order echo two_cases [1; 0])). reflexivity.
  - apply (proj2 (run_all_tests_in_order echo two_cases [1; 0])).
    + intros i Hi. simpl in Hi.
      destruct i as [|[|i]]; [by right; left | by left | lia].
    + intros inp out Hc. unfold two_cases in Hc.
      apply elem_of_cons in Hc as [[= -> ->]|Hc]; [exact I|].
      apply elem_of_cons in Hc as [[= -> ->]|Hc]; [exact I|].
      by apply elem_of_nil in Hc.
Defined.

(** ** The harness: failures stay inside their own case *)




(** ** The isolated runner *)

Local Arguments Qmax : simpl never.
Local Arguments Qmin : simpl never.
Local Arguments Qplus : simpl never.
Local Arguments Qlt_le_dec : simpl never.
Local Arguments Qle_bool : simpl never.

(** Name every minimum and maximum of the goal, keeping its
    characterisation. *)
Ltac minmax_specs :=
  repeat match goal with
  | |- context [Qmax ?a ?b] =>
      let x := fresh "m" in
      pose proof (Q.max_spec a b); set (x := Qmax a b) in *; clearbody x
  | |- context [Qmin ?a ?b] =>
      let x := fresh "m" in
      pose proof (Q.min_spec a b); set (x := Qmin a b) in *; clearbody x
  | _ : context [Qmax ?a ?b] |- _ =>
      let x := fresh "m" in
      pose proof (Q.max_spec a b); set (x := Qmax a b) in *; clearbody x
  | _ : context [Qmin ?a ?b] |- _ =>
      let x := fresh "m" in
      pose proof (Q.min_spec a b); set (x := Qmin a b) in *; clearbody x
  end.

Ltac qsolve :=
  repeat match goal with
  | H : _ ∨ _ |- _ => destruct H as [[? ?]|[? ?]]
  end; lra.

(** Decide the comparisons of times the runner makes. *)
Ltac qdec :=
  repeat match goal with
  | |- context [Qlt_le_dec ?a ?b] => destruct (Qlt_le_dec a b); cbn
  | |- context [Qle_bool ?a ?b] => destruct (Qle_bool a b); cbn
  end.

Ltac unfold_clock :=
  unfold thread_join, terminate, join, join_for, is_alive, delivered,
    in_its_life, death, exits, killed, opt_min.

Lemma Queue_lookup w : queues (Queue w).2 !! (Queue w).1 = Some [].
Proof. unfold Queue; simpl. by rewrite lookup_insert_eq. Qed.

Lemma empty_put w q m l :
  queues w !! q = Some l → empty q (put w (q, m)) = false.
Proof.
  intros Hq. unfold empty, put; simpl. rewrite lookup_alter_eq, Hq; simpl.
  by destruct l.
Qed.

Lemma get_put w q m :
  queues w !! q = Some [] →
  get q (put w (q, Whole m))
  = (Ret m, {| queues := <[q := []]> (queues (put w (q, Whole m)));
               log := log (put w (q, Whole m)) ++ [QGet q] |}).
Proof.
  intros Hq. unfold get. cbn [put queues fst snd].
  by rewrite lookup_alter_eq, Hq.
Qed.

Lemma get_put_torn w q m :
  queues w !! q = Some [] →
  get q (put w (q, Torn m)) = (Diverge, put w (q, Torn m)).
Proof.
  intros Hq. unfold get. cbn [put queues fst snd].
  by rewrite lookup_alter_eq, Hq.
Qed.

(** Every call follows one of the five scripts, and which one does not
    depend on the store it starts from. *)
Lemma run_with_timeout_script process_data k fits user_code_str input_data timeout_sec w w' :
  ∃ sc,
    run_with_timeout process_data k fits user_code_str input_data timeout_sec w
    = play sc w
    ∧ run_with_timeout process_data k fits user_code_str input_data timeout_sec w'
      = play sc w'
    ∧ script_ok sc.
Proof.
  unfold run_with_timeout, play, join_process, run_user_code_in_process.
  pose proof (Queue_lookup w) as Hq. pose proof (Queue_lookup w') as Hq'.
  destruct (Queue w) as [queue w1], (Queue w') as [queue' w1'].
  cbn [fst snd] in Hq, Hq'.
  pose proof (empty_put w1 queue) as Hp. pose proof (empty_put w1' queue') as Hp'.
  pose proof (get_put w1 queue) as Hg. pose proof (get_put w1' queue') as Hg'.
  pose proof (get_put_torn w1 queue) as Ht.
  pose proof (get_put_torn w1' queue') as Ht'.
  assert (He : empty queue w1 = true) by (unfold empty; by rewrite Hq).
  assert (He' : empty queue' w1' = true) by (unfold empty; by rewrite Hq').
  destruct (process_data input_data) as [[v|e] t y|y];
    [destruct (fits _)|destruct (is_Exception e); [destruct (fits _)|]|];
    destruct k as [k|]; unfold_clock; cbn; qdec.
  all: try rewrite !(Hp _ _ Hq), !(Hp' _ _ Hq'); try rewrite !He, !He'; cbn.
  all: try rewrite !(Hg _ Hq), !(Hg' _ Hq').
  all: try rewrite !(Ht _ Hq), !(Ht' _ Hq').
  all: try by exists Hangs.
  all: try by (eexists (NoResult _); split_and!; reflexivity).
  all: try by (eexists (TimesOut _ []); split_and!; [reflexivity..|cbn; lia]).
  all: try by (eexists (TimesOut _ [_]); split_and!; [reflexivity..|cbn; lia]).
  all: try by (eexists (Stuck _); split_and!; reflexivity).
  all: lazymatch goal with
       | |- ∃ sc, {| returned := Ret (?m, ?t); after := _ |} = _ ∧ _ =>
           exists (Delivers m t); rewrite !(Hg _ Hq), !(Hg' _ Hq'); by split_and!
       end.
Qed.

Lemma Queue_fresh w : (Queue w).1 ∉ dom (queues w).
Proof. apply is_fresh. Qed.

Lemma play_single_use sc w :
  script_ok sc → single_use w (after (play sc w)) (Queue w).1.
Proof.
  intros Hok. pose proof (Queue_fresh w) as Hfresh.
  pose proof (Queue_lookup w) as Hq.
  unfold play, single_use.
  assert (Hw1 : queues (Queue w).2 = <[(Queue w).1 := []]> (queues w)) by done.
  assert (Hl1 : log (Queue w).2 = log w ++ [QNew (Queue w).1]) by done.
  destruct (Queue w) as [queue w1]; cbn [fst snd] in *.
  assert (Hother : ∀ q', q' ∈ dom (queues w) → queue ≠ q') by (intros q' Hq' <-; done).
  destruct sc as [|t [|m [|m' unread]]|t|m t|m]; cbn [after fmap list_fmap foldl].
  - split_and!; [done|by apply elem_of_dom; rewrite Hq| |].
    + intros q' Hq'. rewrite Hw1. apply lookup_insert_ne. by apply Hother.
    + exists []. rewrite Hl1. by split_and!; [|constructor|cbn; lia..].
  - split_and!; [done|by apply elem_of_dom; rewrite Hq| |].
    + intros q' Hq'. rewrite Hw1. apply lookup_insert_ne. by apply Hother.
    + exists []. rewrite Hl1. by split_and!; [|constructor|cbn; lia..].
  - unfold put; cbn [queues log fst snd]. split_and!; [done| | |].
    + apply elem_of_dom. by rewrite lookup_alter_eq, Hq.
    + intros q' Hq'. rewrite lookup_alter_ne by by apply Hother.
      rewrite Hw1. apply lookup_insert_ne. by apply Hother.
    + exists [QPut queue (message m)]. rewrite Hl1, <- app_assoc.
      split_and!; [done|by repeat constructor|cbn; lia..].
  - cbn in Hok. lia.
  - split_and!; [done|by apply elem_of_dom; rewrite Hq| |].
    + intros q' Hq'. rewrite Hw1. apply lookup_insert_ne. by apply Hother.
    + exists []. rewrite Hl1. by split_and!; [|constructor|cbn; lia..].
  - rewrite (get_put _ _ _ Hq). unfold put; cbn [queues log fst snd].
    split_and!; [done| | |].
    + apply elem_of_dom. by rewrite lookup_insert_eq.
    + intros q' Hq'. rewrite lookup_insert_ne by by apply Hother.
      rewrite lookup_alter_ne by by apply Hother.
      rewrite Hw1. apply lookup_insert_ne. by apply Hother.
    + exists [QPut queue m; QGet queue]. rewrite Hl1, <- !app_assoc.
      split_and!; [done|by repeat constructor|cbn; lia..].
  - unfold put; cbn [queues log fst snd]. split_and!; [done| | |].
    + apply elem_of_dom. by rewrite lookup_alter_eq, Hq.
    + intros q' Hq'. rewrite lookup_alter_ne by by apply Hother.
      rewrite Hw1. apply lookup_insert_ne. by apply Hother.
    + exists [QPut queue m]. rewrite Hl1, <- app_assoc.
      split_and!; [done|by repeat constructor|cbn; lia..].
Qed.

Lemma play_returned sc w w' : returned (play sc w) = returned (play sc w').
Proof. unfold play. by destruct (Queue w), (Queue w'), sc. Qed.

(** C9: of two successive calls of [run_with_timeout], each creates its own
    queue, which did not exist before the call, differs from the other's,
    and is put to at most once and read at most once, while the queues that
    existed before stay as they were; and the second call returns what it
    would return had the first never run, so nothing the first call produced
    or left unread is observed by the second. *)
Theorem queue_is_single_use pd1 k1 f1 s1 in1 T1 pd2 k2 f2 s2 in2 T2 w :
  let first := run_with_timeout pd1 k1 f1 s1 in1 T1 w in
  let second := run_with_timeout pd2 k2 f2 s2 in2 T2 (after first) in
  single_use w (after first) (Queue w).1
  ∧ single_use (after first) (after second) (Queue (after first)).1
  ∧ (Queue w).1 ≠ (Queue (after first)).1
  ∧ returned second = returned (run_with_timeout pd2 k2 f2 s2 in2 T2 world0).
Proof.
  intros first second.
  destruct (run_with_timeout_script pd1 k1 f1 s1 in1 T1 w w) as (sc1 & H1 & _ & Hok1).
  destruct (run_with_timeout_script pd2 k2 f2 s2 in2 T2 (after first) world0)
    as (sc2 & H2 & H0 & Hok2).
  assert (Hfirst : single_use w (after first) (Queue w).1).
  { unfold first. rewrite H1. by apply play_single_use. }
  split_and!; [done| | |].
  - unfold second. rewrite H2. by apply play_single_use.
  - intros Heq. destruct Hfirst as (_ & Hin & _). rewrite Heq in Hin.
    by apply (Queue_fresh (after first)).
  - unfold second. rewrite H2, H0. apply play_returned.
Qed.

(** C10: the source text handed to [run_with_timeout] plays no part: with
    the same [process_data] in [user_code.py], the same input and the same
    timeout, two source texts give the same call, to the returned tuple, the
    time it takes and the store it leaves. *)
Theorem run_with_timeout_ignores_source process_data latency fits_pipe s1 s2
    input_data timeout_sec w :
  run_with_timeout process_data latency fits_pipe s1 input_data timeout_sec w
  = run_with_timeout process_data latency fits_pipe s2 input_data timeout_sec w.
Proof. reflexivity. Qed.


(** C3, at the failing input: a worker that never finishes and dies within
    the grace once the watchdog thread has signalled it is reported as
    [("error", "Нет результата")], not as a timeout. *)
Theorem watchdog_kill_reported_as_error process_data k fits_pipe user_code_str
    input_data timeout_sec w yields :
  process_data input_data = Forever yields →
  (0 <= timeout_sec)%Q → (0 <= k)%Q → (k <= grace)%Q →
  ∃ t, returned (run_with_timeout process_data (Some k) fits_pipe user_code_str
                   input_data timeout_sec w)
       = Ret ((st_error, PyStr no_result_message), t)
       ∧ (t == timeout_sec + k)%Q.
Proof.
  intros Hpd HT Hk Hg.
  unfold run_with_timeout, join_process, run_user_code_in_process.
  rewrite Hpd.
  pose proof (Queue_lookup w) as Hq. destruct (Queue w) as [queue w1].
  cbn [fst snd] in Hq.
  assert (He : empty queue w1 = true) by (unfold empty; by rewrite Hq).
  unfold_clock; unfold grace in *. cbn. rewrite He. cbn. qdec.
  - exfalso. minmax_specs. qsolve.
  - eexists; split; [reflexivity|]. minmax_specs. qsolve.
Qed.

Lemma watchdog_kill_reported_as_error_witness :
  ∃ t, returned (run_with_timeout loops_forever (Some (1 # 100)) roomy ""
                   sum_of_squares_input 1 world0)
       = Ret ((st_error, PyStr no_result_message), t)
       ∧ (t == 1 + (1 # 100))%Q.
Proof.
  apply (watchdog_kill_reported_as_error loops_forever (1 # 100) roomy ""
           sum_of_squares_input 1 world0 (Suspends Unwinds)); [reflexivity|..];
    by vm_compute.
Defined.

(** C2, as stated, fails: a worker that exits on its own without putting a
    message is answered with the status ["error"], and with the very tuple
    that answers a worker whose function raised an exception with that
    text. *)
Lemma no_result_is_a_generic_error :
  returned (run_with_timeout raises_system_exit (Some 0%Q) roomy ""
              sum_of_squares_input 1 world0)
  = Ret ((st_error, PyStr no_result_message), 1 # 2)
  ∧ log (after (run_with_timeout raises_system_exit (Some 0%Q) roomy ""
              sum_of_squares_input 1 world0)) = [QNew 0]
  ∧ returned (run_with_timeout raises_no_result (Some 0%Q) roomy ""
                sum_of_squares_input 1 world0)
    = Ret ((st_error, PyStr no_result_message), 1 # 2).
Proof. by vm_compute. Qed.

(** C2, amended: when the worker exits on its own within the deadline
    without having put a message, [run_with_timeout] returns
    [("error", "Нет результата")], the status of every error with a fixed
    text, at the time the worker exits. *)
Theorem no_message_reported_as_error process_data latency fits_pipe user_code_str
    input_data timeout_sec w e t yields :
  process_data input_data = Finishes (Raise e) t yields →
  is_Exception e = false →
  (0 <= t)%Q → (t <= timeout_sec)%Q →
  ∃ t', returned (run_with_timeout process_data latency fits_pipe user_code_str
                    input_data timeout_sec w)
        = Ret ((st_error, PyStr no_result_message), t')
        ∧ (t' == t)%Q.
Proof.
  intros Hpd Hbase Ht HT.
  unfold run_with_timeout, join_process, run_user_code_in_process.
  rewrite Hpd, Hbase.
  pose proof (Queue_lookup w) as Hq. destruct (Queue w) as [queue w1].
  cbn [fst snd] in Hq.
  assert (He : empty queue w1 = true) by (unfold empty; by rewrite Hq).
  destruct latency as [k|]; unfold_clock; unfold grace in *; cbn; qdec.
  all: try rewrite He; cbn.
  all: try (exfalso; minmax_specs; qsolve).
  all: eexists; split; [reflexivity|minmax_specs; qsolve].
Qed.

Lemma no_message_reported_as_error_witness :
  ∃ t', returned (run_with_timeout raises_system_exit (Some 0%Q) roomy ""
                    sum_of_squares_input 1 world0)
        = Ret ((st_error, PyStr no_result_message), t')
        ∧ (t' == 1 # 2)%Q.
Proof.
  apply (no_message_reported_as_error raises_system_exit (Some 0%Q) roomy ""
           sum_of_squares_input 1 world0 system_exit (1 # 2) (Suspends Unwinds));
    [reflexivity|reflexivity|by vm_compute|by vm_compute].
Defined.

(** C8, at the failing inputs: the caller is not given its tuple back
    within the deadline plus the grace.  With a worker that never finishes
    and does not die when signalled the caller waits for ever in [p.join()];
    with one that needs ten seconds to die the caller is held for eleven
    seconds under a deadline of one; and with the function of
    [user_code.py] on the input [[2 ** 300000]], whose result does not fit
    the pipe, the caller waits for ever in [queue.get()] for a message of
    which only the head was written before the worker was killed. *)
Lemma caller_blocked_past_grace :
  returned (run_with_timeout loops_forever None roomy "" sum_of_squares_input 1 world0)
  = Diverge
  ∧ returned (run_with_timeout loops_forever (Some 10%Q) roomy ""
                sum_of_squares_input 1 world0)
    = Ret ((st_timeout, PyStr timeout_exceeded_message), 11%Q)
  ∧ returned (run_with_timeout squares_a_huge_number (Some 0%Q) pipe_64k ""
                huge_input 1 world0)
    = Diverge.
Proof. by vm_compute. Qed.

(** ** The orchestrator *)




(** ** The records of the harness *)

Lemma run_single_test_record user_func input_data expected_output timeout r :
  run_single_test user_func input_data expected_output timeout = Ret r →
  match error r with
  | None => (∃ t, time r = Some t) ∧ passed r = py_eq (result r) (expected r)
  | Some _ => passed r = false ∧ result r = PyNone ∧ time r = None
  end.
Proof.
  unfold run_single_test.
  destruct (wait_for (user_func input_data) timeout) as [[v t]|e|]; [| |done].
  - intros [= <-]; simpl. by eauto.
  - destruct (is_TimeoutError e); [|destruct (is_Exception e); [|done]];
      by intros [= <-].
Qed.

Lemma run_all_tests_results user_func test_cases sched results :
  run_all_tests user_func test_cases sched = Ret results →
  Forall2 (λ c r, run_single_test user_func c.1 c.2 default_timeout = Ret r)
    test_cases results.
Proof.
  unfold run_all_tests. intros Hall%gather_sound.
  revert results Hall. induction test_cases as [|[inp out] cases IH];
    intros [|r results]; rewrite ?fmap_cons; try done.
  intros [= Hr Hrest]. constructor; [done|by apply IH].
Qed.

(** X1: in every report the harness returns, a result that records an error
    (a timeout or an exception) has [passed] false, no value and no time,
    and a result without error has a time and has [passed] equal to
    [result == expected]. *)
Theorem report_records_consistent user_func test_cases sched results :
  run_all_tests user_func test_cases sched = Ret results →
  Forall (λ r,
    match error r with
    | None => (∃ t, time r = Some t) ∧ passed r = py_eq (result r) (expected r)
    | Some _ => passed r = false ∧ result r = PyNone ∧ time r = None
    end) results.
Proof.
  intros HF%run_all_tests_results.
  induction HF as [|c r cases results Hr _ IH]; constructor; [|done].
  by eapply run_single_test_record.
Qed.

Lemma report_records_consistent_witness :
  Forall (λ r,
    match error r with
    | None => (∃ t, time r = Some t) ∧ passed r = py_eq (result r) (expected r)
    | Some _ => passed r = false ∧ result r = PyNone ∧ time r = None
    end)
    [TestResult (PyInt 1) (PyInt 1) (PyInt 1) true (Some 0%Q) None;
     failed (PyInt 2) (PyInt 3) zero_division].
Proof.
  apply (report_records_consistent fails_on_2 two_cases [1; 0]). reflexivity.
Defined.

Section gather_throws.
Context {A : Type}.
Implicit Types (futs : list (option A)) (children : list (outcome A)).

Lemma collect_full futs :
  nfilled futs = length futs → ∃ vals, collect futs = Ret vals.
Proof.
  induction futs as [|[a|] futs IH]; simpl.
  - by eexists.
  - intros [= Hn]. destruct (IH Hn) as [vals ->]. by eexists.
  - intros Hn. pose proof (nfilled_le futs). lia.
Qed.

Lemma gather_loop_throws children sched futs e :
  length futs = length children →
  gather_loop children sched futs (nfilled futs) = Throw e →
  ∃ i, children !! i = Some (Throw e).
Proof.
  revert futs. induction sched as [|i sched IH]; intros futs Hlen; simpl; [done|].
  destruct (futs !! i) as [[a|]|] eqn:Hf; [by apply IH..| |by apply IH].
  destruct (children !! i) as [[a|e'|]|] eqn:Hc; [| |done|by apply IH].
  - pose proof (nfilled_insert _ _ a Hf) as Hn. case_decide as Hfull.
    + destruct (collect_full (<[i := Some a]> futs)) as [vals ->]; [|done].
      by rewrite length_insert, Hn, Hfull.
    + rewrite <- Hn. apply IH. by rewrite length_insert.
  - intros [= ->]. by exists i.
Qed.

Lemma gather_throws children sched e :
  gather children sched = Throw e → ∃ i, children !! i = Some (Throw e).
Proof.
  unfold gather. destruct children as [|c children]; [done|].
  pose proof (nfilled_replicate (A := A) (length (c :: children))) as Hz.
  rewrite <- Hz at 1. apply gather_loop_throws. by rewrite length_replicate.
Qed.

End gather_throws.

(** X2: an exception that leaves [run_all_tests] is one that the call of
    one of the cases raised, and it does not derive from [Exception]: the
    harness adds no exception of its own and lets no [Exception] through. *)
Theorem run_all_tests_lets_through user_func test_cases sched e :
  run_all_tests user_func test_cases sched = Throw e →
  is_Exception e = false
  ∧ ∃ inp out, (inp, out) ∈ test_cases
               ∧ wait_for (user_func inp) default_timeout = Throw e.
Proof.
  unfold run_all_tests. intros [i Hi]%gather_throws.
  rewrite list_lookup_fmap in Hi.
  destruct (test_cases !! i) as [[inp out]|] eqn:Hc; [|done].
  injection Hi as Hi. unfold run_single_test in Hi.
  destruct (wait_for (user_func inp) default_timeout) as [[v t]|e'|] eqn:Hw;
    [done| |done].
  destruct (is_TimeoutError e'); [done|].
  destruct (is_Exception e') eqn:He; [done|]. injection Hi as ->.
  split; [done|]. exists inp, out. split; [|done].
  by eapply list_elem_of_lookup_2.
Qed.

Lemma run_all_tests_lets_through_witness :
  is_Exception system_exit = false
  ∧ ∃ inp out, (inp, out) ∈ two_cases
               ∧ wait_for (exits_on_2 inp) default_timeout = Throw system_exit.
Proof.
  apply (run_all_tests_lets_through exits_on_2 two_cases [0; 1]). reflexivity.
Defined.

(** ** The verdict of the orchestrator *)

Lemma run_single_test_passed user_func input_data expected_output timeout r :
  run_single_test user_func input_data expected_output timeout = Ret r →
  passed r = true →
  ∃ v t, wait_for (user_func input_data) timeout = Ret (v, t)
         ∧ py_eq v expected_output = true.
Proof.
  unfold run_single_test.
  destruct (wait_for (user_func input_data) timeout) as [[v t]|e|]; [| |done].
  - intros [= <-]; simpl. by eauto.
  - destruct (is_TimeoutError e); [|destruct (is_Exception e); [|done]];
      by intros [= <-].
Qed.

Lemma run_all_tests_throws user_func test_cases sched e :
  run_all_tests user_func test_cases sched = Throw e → is_Exception e = false.
Proof.
  unfold run_all_tests. intros [i Hi]%gather_throws.
  rewrite list_lookup_fmap in Hi.
  destruct (test_cases !! i) as [[inp out]|]; [|done].
  injection Hi as Hi. unfold run_single_test in Hi.
  destruct (wait_for (user_func inp) default_timeout) as [[v t]|e'|];
    [done| |done].
  destruct (is_TimeoutError e'); [done|].
  destruct (is_Exception e') eqn:He; [done|]. by injection Hi as ->.
Qed.

Section orchestrator_facts.
Variable exec : string → outcome (gmap string pyobj).
Variable py_str : pyval → outcome string.
Variable fmt_3f : Q → string.



(** X3: with no test case at all, a source that loads and defines an
    [async def process_data] is accepted: the harness runs once, the verdict
    is [True] and the report is empty. *)
Theorem validate_user_code_no_cases user_code sched local_vars user_func :
  exec user_code = Ret local_vars →
  local_vars !! "process_data" = Some (CoroutineFunction user_func) →
  validate_user_code exec py_str fmt_3f user_code [] sched
  = {| verdict := Ret (true, "", None); harness_runs := 1 |}.
Proof. unfold validate_user_code. by intros -> ->. Qed.

(** X4: a verdict of [True] is sound.  When [validate_user_code] answers
    [True], the source has loaded, [process_data] is an [async def] function,
    the harness has run once, there is no line number, and for every test
    case the awaited call gave back, with no timeout error and no exception,
    a value that [==] the expected one.  Nothing is said of the time the
    call took: a call that never suspends is not interrupted at the timeout
    and passes however late it returns. *)
Theorem validate_user_code_true_sound user_code test_cases sched report line :
  verdict (validate_user_code exec py_str fmt_3f user_code test_cases sched)
  = Ret (true, report, line) →
  ∃ local_vars user_func,
    exec user_code = Ret local_vars
    ∧ local_vars !! "process_data" = Some (CoroutineFunction user_func)
    ∧ line = None
    ∧ harness_runs (validate_user_code exec py_str fmt_3f user_code test_cases
                      sched) = 1
    ∧ ∀ inp out, (inp, out) ∈ test_cases →
        ∃ v t, wait_for (user_func inp) default_timeout = Ret (v, t)
               ∧ py_eq v out = true.
Proof.
  unfold validate_user_code.
  destruct (exec user_code) as [local_vars|e|]; [| |done].
  - destruct (local_vars !! "process_data") as [[user_func|]|] eqn:Hpd;
      [|done..].
    destruct (run_all_tests user_func test_cases sched) as [results|e|] eqn:Hrun;
      [| |done].
    + destruct (report_from py_str fmt_3f 1 results) as [lines|e|]; [|done..].
      cbn. intros [= Hall <- <-]. exists local_vars, user_func.
      split_and!; [done..|].
      apply run_all_tests_results in Hrun.
      intros inp out Hc. apply list_elem_of_lookup in Hc as [i Hi].
      destruct (Forall2_lookup_l _ _ _ _ _ Hrun Hi) as (r & Hr & Hsingle).
      eapply run_single_test_passed; [exact Hsingle|].
      rewrite forallb_forall in Hall. apply Hall.
      apply list_elem_of_In. by eapply list_elem_of_lookup_2.
    + by destruct (is_Exception e).
  - destruct (cls e); [done|by destruct (is_Exception e)..].
Qed.


(** X6: a line number comes only from a syntax error.  When the returned
    tuple carries a line, the verdict is [False], the harness has not run,
    and [exec] raised a [SyntaxError] that reports that line. *)
Theorem validate_user_code_line user_code test_cases sched ok report line :
  verdict (validate_user_code exec py_str fmt_3f user_code test_cases sched)
  = Ret (ok, report, Some line) →
  ok = false
  ∧ harness_runs (validate_user_code exec py_str fmt_3f user_code test_cases
                    sched) = 0
  ∧ ∃ e msg, exec user_code = Throw e ∧ cls e = SyntaxError msg (Some line).
Proof.
  unfold validate_user_code.
  destruct (exec user_code) as [local_vars|e|]; [| |done].
  - destruct (local_vars !! "process_data") as [[user_func|]|]; [|done..].
    destruct (run_all_tests user_func test_cases sched) as [results|e|];
      [by destruct (report_from py_str fmt_3f 1 results)| |done].
    by destruct (is_Exception e).
  - destruct (cls e) as [msg lineno| | |] eqn:Hcls;
      [|by destruct (is_Exception e)..].
    cbn. intros [= <- <- ->]. split_and!; [done..|]. by exists e, msg.
Qed.

(** The harness runs exactly when the source has loaded and
    [process_data] is an [async def] function, and then once; on every other
    outcome of the load it does not run. *)
Lemma validate_user_code_harness_runs user_code test_cases sched :
  harness_runs (validate_user_code exec py_str fmt_3f user_code test_cases sched)
  = match exec user_code with
    | Ret local_vars =>
        match local_vars !! "process_data" with
        | Some (CoroutineFunction _) => 1
        | _ => 0
        end
    | _ => 0
    end.
Proof.
  unfold validate_user_code.
  destruct (exec user_code) as [local_vars|e|]; [| |done].
  - destruct (local_vars !! "process_data") as [[user_func|]|]; [|done..].
    destruct (run_all_tests user_func test_cases sched) as [results|e|];
      [by destruct (report_from py_str fmt_3f 1 results)| |done].
    by destruct (is_Exception e).
  - destruct (cls e); [done|by destruct (is_Exception e)..].
Qed.


(** X8: the list that the loop of the report builds, before its entries are
    joined, has one entry per case and one more for each case that did not
    pass.  (An entry may itself hold several lines of text: the entry with a
    trace does.) *)
Theorem report_from_length i results lines :
  report_from py_str fmt_3f i results = Ret lines →
  length lines
  = length results + length (List.filter (λ r, negb (passed r)) results).
Proof.
  revert i lines. induction results as [|r results IH]; intros i lines.
  { by intros [= <-]. }
  cbn [report_from List.filter].
  destruct (report_lines py_str fmt_3f i r) as [first|e|] eqn:Hr; [|done..].
  destruct (report_from py_str fmt_3f (S i) results) as [more|e|] eqn:Hrest;
    [|done..].
  intros [= <-]. rewrite length_app, (IH _ _ Hrest).
  unfold report_lines in Hr.
  destruct (passed r); cbn.
  { injection Hr as <-. cbn. lia. }
  destruct (error r) as [[|c tr]|];
    try (destruct (py_str (expected r)); [|done..];
         destruct (py_str (result r)); [|done..]);
    injection Hr as <-; cbn; lia.
Qed.

End orchestrator_facts.

(** ** The answers of the isolated runner *)

Lemma Qle_bool_false a b : Qle_bool a b = false → (b < a)%Q.
Proof.
  intros Hb. apply Qnot_le_lt. intros Hle%Qle_bool_iff. congruence.
Qed.

(** Decide the comparisons of times, keeping what each decision says. *)
Ltac qdec_eq :=
  repeat match goal with
  | |- context [Qlt_le_dec ?a ?b] => destruct (Qlt_le_dec a b); cbn
  | |- context [Qle_bool ?a ?b] =>
      let E := fresh "E" in
      destruct (Qle_bool a b) eqn:E;
      [apply Qle_bool_iff in E | apply Qle_bool_false in E]; cbn
  end.

(** X9: a value returned within the deadline, in a message that fits the
    pipe of the queue, is delivered.  When [process_data] returns [v] after
    [t] seconds, no later than the deadline, and the pickled
    [("result", v)] fits the buffer of the pipe, [run_with_timeout] returns
    [("result", v)] at that time. *)
Theorem run_with_timeout_result process_data latency fits_pipe user_code_str
    input_data timeout_sec w v t yields :
  process_data input_data = Finishes (Return v) t yields →
  fits_pipe (st_result, v) = true →
  (0 <= t)%Q → (t <= timeout_sec)%Q →
  ∃ t', returned (run_with_timeout process_data latency fits_pipe user_code_str
                    input_data timeout_sec w)
        = Ret ((st_result, v), t')
        ∧ (t' == t)%Q.
Proof.
  intros Hpd Hfits Ht HT.
  unfold run_with_timeout, join_process, run_user_code_in_process.
  rewrite Hpd, Hfits.
  pose proof (Queue_lookup w) as Hq. destruct (Queue w) as [queue w1].
  cbn [fst snd] in Hq.
  pose proof (empty_put w1 queue) as Hp. pose proof (get_put w1 queue) as Hg.
  assert (He : empty queue w1 = true) by (unfold empty; by rewrite Hq).
  destruct latency as [k|]; unfold_clock; unfold grace in *; cbn; qdec_eq.
  all: try rewrite !(Hp _ _ Hq); try rewrite !He; cbn.
  all: try rewrite !(Hg _ Hq).
  all: clear Hp Hg.
  all: try (exfalso; minmax_specs; qsolve).
  all: try (eexists; split; [reflexivity|minmax_specs; qsolve]).
Qed.

Lemma run_with_timeout_result_witness :
  ∃ t', returned (run_with_timeout echo (Some 0%Q) pipe_64k ""
                    sum_of_squares_input 1 world0)
        = Ret ((st_result, sum_of_squares_input), t')
        ∧ (t' == 1 # 2)%Q.
Proof.
  apply (run_with_timeout_result echo (Some 0%Q) pipe_64k ""
           sum_of_squares_input 1 world0 sum_of_squares_input (1 # 2)
           (Suspends Unwinds));
    [reflexivity|reflexivity|by vm_compute|by vm_compute].
Defined.

(** X10: an exception raised within the deadline is reported with its
    text, when the message fits the pipe of the queue.  When [process_data]
    raises, after [t] seconds and no later than the deadline, an exception
    [e] derived from [Exception], and the pickled [("error", str(e))] fits
    the buffer of the pipe, [run_with_timeout] returns [("error", str(e))]
    at that time. *)
Theorem run_with_timeout_error process_data latency fits_pipe user_code_str
    input_data timeout_sec w e t yields :
  process_data input_data = Finishes (Raise e) t yields →
  is_Exception e = true →
  fits_pipe (st_error, PyStr (str_e e)) = true →
  (0 <= t)%Q → (t <= timeout_sec)%Q →
  ∃ t', returned (run_with_timeout process_data latency fits_pipe user_code_str
                    input_data timeout_sec w)
        = Ret ((st_error, PyStr (str_e e)), t')
        ∧ (t' == t)%Q.
Proof.
  intros Hpd Hexn Hfits Ht HT.
  unfold run_with_timeout, join_process, run_user_code_in_process.
  rewrite Hpd, Hexn, Hfits.
  pose proof (Queue_lookup w) as Hq. destruct (Queue w) as [queue w1].
  cbn [fst snd] in Hq.
  pose proof (empty_put w1 queue) as Hp. pose proof (get_put w1 queue) as Hg.
  assert (He : empty queue w1 = true) by (unfold empty; by rewrite Hq).
  destruct latency as [k|]; unfold_clock; unfold grace in *; cbn; qdec_eq.
  all: try rewrite !(Hp _ _ Hq); try rewrite !He; cbn.
  all: try rewrite !(Hg _ Hq).
  all: clear Hp Hg.
  all: try (exfalso; minmax_specs; qsolve).
  all: try (eexists; split; [reflexivity|minmax_specs; qsolve]).
Qed.

Lemma run_with_timeout_error_witness :
  ∃ t', returned (run_with_timeout raises_no_result (Some 0%Q) pipe_64k ""
                    sum_of_squares_input 1 world0)
        = Ret ((st_error, PyStr (str_e no_result_error)), t')
        ∧ (t' == 1 # 2)%Q.
Proof.
  apply (run_with_timeout_error raises_no_result (Some 0%Q) pipe_64k ""
           sum_of_squares_input 1 world0 no_result_error (1 # 2)
           (Suspends Unwinds));
    [reflexivity|reflexivity|reflexivity|by vm_compute|by vm_compute].
Defined.

(** X11: the answer ["timeout"] never comes back early.  Under a
    non-negative deadline, when [run_with_timeout] returns the status
    ["timeout"], it does so later than the deadline plus the grace of a
    tenth of a second, and with the fixed text. *)
Theorem run_with_timeout_timeout_is_late process_data latency fits_pipe
    user_code_str input_data timeout_sec w m t :
  (0 <= timeout_sec)%Q →
  returned (run_with_timeout process_data latency fits_pipe user_code_str
              input_data timeout_sec w)
  = Ret ((st_timeout, m), t) →
  (timeout_sec + grace < t)%Q ∧ m = PyStr timeout_exceeded_message.
Proof.
  intros HT.
  unfold run_with_timeout, join_process, run_user_code_in_process.
  pose proof (Queue_lookup w) as Hq. destruct (Queue w) as [queue w1].
  cbn [fst snd] in Hq.
  pose proof (empty_put w1 queue) as Hp. pose proof (get_put w1 queue) as Hg.
  pose proof (get_put_torn w1 queue) as Ht.
  assert (He : empty queue w1 = true) by (unfold empty; by rewrite Hq).
  destruct (process_data input_data) as [[v|e] t0 y|y];
    [destruct (fits_pipe _)|destruct (is_Exception e); [destruct (fits_pipe _)|]|];
    destruct latency as [k|];
    unfold_clock; unfold grace in *; cbn; qdec_eq.
  all: try rewrite !(Hp _ _ Hq); try rewrite !He; cbn.
  all: try rewrite !(Hg _ Hq).
  all: try rewrite !(Ht _ Hq).
  all: clear Hp Hg Ht; cbn.
  all: intros Hret; simplify_eq.
  all: split; [minmax_specs; qsolve|done].
Qed.

Lemma run_with_timeout_timeout_is_late_witness :
  (1 + grace < 11)%Q
  ∧ PyStr timeout_exceeded_message = PyStr timeout_exceeded_message.
Proof.
  apply (run_with_timeout_timeout_is_late loops_forever (Some 10%Q) roomy ""
           sum_of_squares_input 1 world0); [by vm_compute|by vm_compute].
Defined.

(** X12: every answer has its origin in the worker.  A returned
    [("result", m)] means that [process_data] returned [m]; a returned
    [("error", m)] carries either the fixed text of the empty queue or the
    text of an exception derived from [Exception] that [process_data] raised;
    a returned [("timeout", m)] carries the fixed text. *)
Theorem run_with_timeout_origin process_data latency fits_pipe user_code_str
    input_data timeout_sec w s m t :
  returned (run_with_timeout process_data latency fits_pipe user_code_str
              input_data timeout_sec w)
  = Ret ((s, m), t) →
  match s with
  | st_result => ∃ t' yields, process_data input_data = Finishes (Return m) t' yields
  | st_error =>
      m = PyStr no_result_message
      ∨ ∃ e t' yields, process_data input_data = Finishes (Raise e) t' yields
                       ∧ is_Exception e = true ∧ m = PyStr (str_e e)
  | st_timeout => m = PyStr timeout_exceeded_message
  end.
Proof.
  unfold run_with_timeout, join_process, run_user_code_in_process.
  pose proof (Queue_lookup w) as Hq. destruct (Queue w) as [queue w1].
  cbn [fst snd] in Hq.
  pose proof (empty_put w1 queue) as Hp. pose proof (get_put w1 queue) as Hg.
  pose proof (get_put_torn w1 queue) as Ht.
  assert (He : empty queue w1 = true) by (unfold empty; by rewrite Hq).
  destruct (process_data input_data) as [[v|e] t0 y|y];
    [destruct (fits_pipe _)
    |destruct (is_Exception e) eqn:Hexn; [destruct (fits_pipe _)|]|];
    destruct latency as [k|];
    unfold_clock; cbn; qdec.
  all: try rewrite !(Hp _ _ Hq); try rewrite !He; cbn.
  all: try rewrite !(Hg _ Hq).
  all: try rewrite !(Ht _ Hq).
  all: clear Hp Hg Ht; cbn.
  all: intros Hret; simplify_eq; cbn.
  all: try done.
  all: try by left.
  all: try by eauto.
  all: right; by eauto 10.
Qed.

Lemma run_with_timeout_origin_witness :
  ∃ t' yields, echo sum_of_squares_input
               = Finishes (Return sum_of_squares_input) t' yields.
Proof.
  apply (run_with_timeout_origin echo (Some 0%Q) roomy "" sum_of_squares_input 1
           world0 st_result sum_of_squares_input (1 # 2)).
  by vm_compute.
Defined.

(** ** The solution in user_code.py *)

Example process_data_1234 : user_code.process_data [1; 2; 3; 4]%Z = 20%Z.
Proof. reflexivity. Qed.

Example process_data_empty : user_code.process_data [] = 0%Z.
Proof. reflexivity. Qed.

Example process_data_246 : user_code.process_data [2; 4; 6]%Z = 56%Z.
Proof. reflexivity. Qed.

Lemma foldl_add_from (a : Z) (l : list Z) :
  foldl Z.add a l = (a + foldl Z.add 0 l)%Z.
Proof.
  revert a. induction l as [|x l IH]; intros a; simpl; [lia|].
  rewrite (IH (a + x)%Z), (IH (0 + x)%Z). lia.
Qed.

Lemma process_data_cons (x : Z) (data : list Z) :
  user_code.process_data (x :: data)
  = ((if decide (x mod 2 = 0) then x ^ 2 else 0)
     + user_code.process_data data)%Z.
Proof.
  unfold user_code.process_data. rewrite filter_cons.
  destruct (decide (x mod 2 = 0)%Z); [|lia].
  rewrite fmap_cons. simpl. rewrite foldl_add_from. lia.
Qed.

(** X13: the answer of [process_data] adds up over concatenation: the
    answer on [l1 + l2] is the sum of the answers on [l1] and on [l2]. *)
Theorem process_data_app (l1 l2 : list Z) :
  user_code.process_data (l1 ++ l2)
  = (user_code.process_data l1 + user_code.process_data l2)%Z.
Proof.
  induction l1 as [|x l1 IH]; [by unfold user_code.process_data; simpl; lia|].
  rewrite <- app_comm_cons, !process_data_cons, IH. lia.
Qed.

(** X14: the answer of [process_data] does not depend on the order of the
    data. *)
Theorem process_data_permutation (l1 l2 : list Z) :
  l1 ≡ₚ l2 → user_code.process_data l1 = user_code.process_data l2.
Proof.
  induction 1 as [|x l1 l2 _ IH|x y l|l1 l2 l3 _ IH1 _ IH2].
  - done.
  - by rewrite !process_data_cons, IH.
  - rewrite !process_data_cons. lia.
  - by rewrite IH1.
Qed.

Lemma process_data_permutation_witness :
  user_code.process_data [1; 2; 3; 4]%Z = user_code.process_data [4; 3; 2; 1]%Z.
Proof.
  apply (process_data_permutation [1; 2; 3; 4]%Z [4; 3; 2; 1]%Z).
  apply (Permutation_rev [1; 2; 3; 4]%Z).
Defined.

Lemma process_data_nonneg (data : list Z) :
  (0 ≤ user_code.process_data data)%Z.
Proof.
  induction data as [|x data IH]; [done|].
  rewrite process_data_cons. destruct (decide (x mod 2 = 0)%Z); nia.
Qed.

(** X15: the answer of [process_data] is never negative and is a multiple
    of four. *)
Theorem process_data_multiple_of_4 (data : list Z) :
  (0 ≤ user_code.process_data data)%Z
  ∧ (user_code.process_data data mod 4 = 0)%Z.
Proof.
  induction data as [|x data [IHpos IHmod]]; [done|].
  rewrite process_data_cons. destruct (decide (x mod 2 = 0)%Z) as [Heven|_].
  - assert (Hx : ∃ k, x = (2 * k)%Z).
    { exists (x / 2)%Z. pose proof (Z.div_mod x 2). lia. }
    destruct Hx as [k ->]. split; [nia|].
    replace ((2 * k) ^ 2)%Z with (k * k * 4)%Z by lia.
    rewrite Z.add_comm, Z.mod_add by lia. done.
  - split; [lia|]. by rewrite Z.add_0_l.
Qed.

(** X16: the answer of [process_data] is zero exactly when the data hold no
    even number other than zero. *)
Theorem process_data_zero (data : list Z) :
  user_code.process_data data = 0%Z
  ↔ ∀ x, x ∈ data → (x mod 2 = 0)%Z → x = 0%Z.
Proof.
  induction data as [|y data IH].
  - split; [by intros _ x Hx%elem_of_nil|done].
  - rewrite process_data_cons.
    pose proof (process_data_nonneg data) as Hpos.
    split.
    + intros Hsum x Hx Heven. apply elem_of_cons in Hx as [->|Hx].
      * rewrite decide_True in Hsum by done. nia.
      * apply IH; [|done..]. destruct (decide (y mod 2 = 0)%Z); nia.
    + intros Hall.
      assert (Hrest : user_code.process_data data = 0%Z).
      { apply IH. intros x Hx. apply Hall. by right. }
      rewrite Hrest. destruct (decide (y mod 2 = 0)%Z) as [Heven|_]; [|done].
      rewrite (Hall y); [done|by left|done].
Qed.

(** ** The positions of main.py *)

Lemma pretty_N_char_no_dot x : pretty_N_char x ≠ dot.
Proof. unfold pretty_N_char. by repeat case_match; compute. Qed.

Lemma pretty_N_go_no_dot x s : no_dot s → no_dot (pretty_N_go x s).
Proof.
  revert s. induction (N.lt_wf_0 x) as [x _ IH]; intros s Hs.
  assert (x = 0 ∨ 0 < x)%N as [->|Hpos] by lia; [done|].
  rewrite pretty_N_go_step by done. apply IH; [by apply N.div_lt|].
  split; [apply pretty_N_char_no_dot|done].
Qed.

Lemma pretty_nat_no_dot (n : nat) : no_dot (pretty n).
Proof.
  unfold pretty, pretty_nat, pretty, pretty_N.
  case_decide; [by split|]. by apply pretty_N_go_no_dot.
Qed.

Lemma split_at_dot s1 s2 t1 t2 :
  no_dot s1 → no_dot s2 →
  s1 +:+ "." +:+ t1 = s2 +:+ "." +:+ t2 → s1 = s2 ∧ t1 = t2.
Proof.
  revert s2. induction s1 as [|c s1 IH]; intros [|d s2] H1 H2 Heq;
    injection Heq as Heq; simpl in H1, H2.
  - by subst.
  - destruct H2 as [Hd _]. by destruct Hd.
  - destruct H1 as [Hc _]. by destruct Hc.
  - destruct H1 as [_ H1], H2 as [_ H2]. subst.
    by destruct (IH s2 H1 H2 H) as [-> ->].
Qed.

(** X17: a position names one place only: two positions that read the same
    have the same line and the same column. *)
Theorem position_inj line col line' col' :
  position line col = position line' col' → line = line' ∧ col = col'.
Proof.
  unfold position. intros Heq.
  apply split_at_dot in Heq as [Hl Hc]; [|apply pretty_nat_no_dot..].
  split; by apply (inj pretty).
Qed.

Lemma position_inj_witness : 3 = 3 ∧ 14 = 14.
Proof. apply (position_inj 3 14 3 14). reflexivity. Defined.

Section main_facts.
Variable splitlines : string → list string.
Variable finditer : string → string → outcome (list (nat * nat)).

Lemma search_lines_positions pattern i lines matches s e :
  search_lines finditer pattern i lines = Ret matches →
  (s, e) ∈ matches →
  ∃ j line found a b,
    lines !! j = Some line ∧ finditer pattern line = Ret found
    ∧ (a, b) ∈ found
    ∧ s = position (i + j + 1) a ∧ e = position (i + j + 1) b.
Proof.
  revert i matches. induction lines as [|line lines IH]; intros i matches; simpl.
  - by intros [= <-] Hin%elem_of_nil.
  - destruct (finditer pattern line) as [found| |] eqn:Hfound; [|done..].
    destruct (search_lines finditer pattern (S i) lines) as [rest| |] eqn:Hrest;
      [|done..].
    intros [= <-] [Hin|Hin]%elem_of_app.
    + apply list_elem_of_fmap in Hin as ([a b] & [= -> ->] & Hab).
      exists 0, line, found, a, b. split_and!; try done;
        by rewrite Nat.add_0_r.
    + destruct (IH _ _ Hrest Hin) as (j & l & f & a & b & Hj & Hf & Hab & -> & ->).
      exists (S j), l, f, a, b. split_and!; try done;
        f_equal; lia.
Qed.

(** X18: every pair [search_re] returns comes from a match of the pattern
    in one line of the text: both ends carry the number of that line,
    counted from one and no greater than the number of lines, with the
    start and the end of the match as columns. *)
Theorem search_re_positions pattern text matches s e :
  search_re splitlines finditer pattern text = Ret matches →
  (s, e) ∈ matches →
  ∃ j line found a b,
    splitlines text !! j = Some line ∧ finditer pattern line = Ret found
    ∧ (a, b) ∈ found
    ∧ 1 ≤ j + 1 ≤ length (splitlines text)
    ∧ s = position (j + 1) a ∧ e = position (j + 1) b.
Proof.
  unfold search_re. intros Hret Hin.
  destruct (search_lines_positions _ _ _ _ _ _ Hret Hin)
    as (j & line & found & a & b & Hj & Hf & Hab & -> & ->).
  exists j, line, found, a, b. split_and!; try done; [lia|].
  apply lookup_lt_Some in Hj. lia.
Qed.

Lemma search_lines_length pattern i lines matches :
  search_lines finditer pattern i lines = Ret matches →
  ∃ founds,
    Forall2 (λ line found, finditer pattern line = Ret found) lines founds
    ∧ length matches = length (concat founds).
Proof.
  revert i matches. induction lines as [|line lines IH]; intros i matches; simpl.
  - intros [= <-]. exists []. by split; [constructor|].
  - destruct (finditer pattern line) as [found| |] eqn:Hfound; [|done..].
    destruct (search_lines finditer pattern (S i) lines) as [rest| |] eqn:Hrest;
      [|done..].
    intros [= <-]. destruct (IH _ _ Hrest) as (founds & HF & Hlen).
    exists (found :: founds). split; [by constructor|].
    simpl. by rewrite !length_app, length_fmap, Hlen.
Qed.

(** X19: [search_re] returns a list only when the pattern could be matched
    against every line, and then it returns one pair for each match found in
    each line, no more and no fewer. *)
Theorem search_re_count pattern text matches :
  search_re splitlines finditer pattern text = Ret matches →
  ∃ founds,
    Forall2 (λ line found, finditer pattern line = Ret found)
      (splitlines text) founds
    ∧ length matches = length (concat founds).
Proof. apply search_lines_length. Qed.

End main_facts.

(** ** More on the harness *)

(** X20: for calls that suspend at their awaits and a schedule that
    completes every task, the harness returns a report exactly when the call
    of every case stays inside its task (it returns, times out or raises an
    exception derived from [Exception]): there is a full report or none. *)
Theorem run_all_tests_all_or_nothing user_func test_cases sched :
  (∀ i, i < length test_cases → i ∈ sched) →
  (∀ inp out, (inp, out) ∈ test_cases → cooperative (user_func inp)) →
  (∃ results, run_all_tests user_func test_cases sched = Ret results)
  ↔ ∀ inp out, (inp, out) ∈ test_cases →
      contained (user_func inp) default_timeout.
Proof.
  intros Hcov _. split.
  - intros [results HF%run_all_tests_results] inp out Hc.
    apply list_elem_of_lookup in Hc as [i Hi].
    destruct (Forall2_lookup_l _ _ _ _ _ HF Hi) as (r & _ & Hr). cbn in Hr.
    unfold contained. unfold run_single_test in Hr.
    destruct (wait_for (user_func inp) default_timeout) as [[v t]|e|];
      [done| |done].
    destruct (is_TimeoutError e) eqn:Ht.
    + unfold is_TimeoutError in Ht. unfold is_Exception.
      by destruct (cls e).
    + by destruct (is_Exception e).
  - intros Hin.
    destruct (run_all_tests_returns _ _ _ Hcov Hin) as (results & Hr & _).
    by exists results.
Qed.

Lemma run_all_tests_all_or_nothing_witness :
  (∃ results, run_all_tests fails_on_2 two_cases [1; 0] = Ret results)
  ↔ ∀ inp out, (inp, out) ∈ two_cases →
      contained (fails_on_2 inp) default_timeout.
Proof.
  apply (run_all_tests_all_or_nothing fails_on_2 two_cases [1; 0]).
  - intros i Hi. simpl in Hi.
    destruct i as [|[|i]]; [by right; left | by left | lia].
  - intros inp out Hc. unfold two_cases in Hc.
    apply elem_of_cons in Hc as [[= -> ->]|Hc]; [reflexivity|].
    apply elem_of_cons in Hc as [[= -> ->]|Hc]; [reflexivity|].
    by apply elem_of_nil in Hc.
Defined.

(** X21: the report does not depend on the schedule: two orders of
    completion that both complete every task give the same report, when the
    call of every case suspends at its awaits and stays inside its task. *)
Theorem run_all_tests_any_schedule user_func test_cases sched sched' :
  (∀ i, i < length test_cases → i ∈ sched) →
  (∀ i, i < length test_cases → i ∈ sched') →
  (∀ inp out, (inp, out) ∈ test_cases →
     cooperative (user_func inp)
     ∧ contained (user_func inp) default_timeout) →
  run_all_tests user_func test_cases sched
  = run_all_tests user_func test_cases sched'.
Proof.
  intros Hcov Hcov' Hin. unfold run_all_tests.
  destruct (all_tasks_return
    (λ '(inp, out), run_single_test user_func inp out default_timeout)
    (λ _ _, True) test_cases) as (vals & -> & HF).
  { intros [inp out] Hc.
    destruct (run_single_test_contained user_func inp out default_timeout)
      as (r & Hr & _); [by eapply Hin|]. by exists r. }
  rewrite !gather_complete; [done|..];
    intros i Hi; rewrite <- (Forall2_length _ _ _ HF) in Hi; auto.
Qed.

Lemma run_all_tests_any_schedule_witness :
  run_all_tests fails_on_2 two_cases [1; 0]
  = run_all_tests fails_on_2 two_cases [0; 0; 1].
Proof.
  apply (run_all_tests_any_schedule fails_on_2 two_cases [1; 0] [0; 0; 1]).
  - intros i Hi. simpl in Hi.
    destruct i as [|[|i]]; [by right; left | by left | lia].
  - intros i Hi. simpl in Hi.
    destruct i as [|[|i]]; [by left | by right; right; left | lia].
  - intros inp out Hc. unfold two_cases in Hc.
    apply elem_of_cons in Hc as [[= -> ->]|Hc]; [split; [reflexivity|exact I]|].
    apply elem_of_cons in Hc as [[= -> ->]|Hc]; [split; reflexivity|].
    by apply elem_of_nil in Hc.
Defined.

(** ** More on the isolated runner *)

(** X22: every answer but ["timeout"] comes back by the deadline plus the
    grace.  Under a non-negative deadline, when [run_with_timeout] returns
    the status ["result"] or ["error"], it does so no later than the deadline
    plus a tenth of a second. *)
Theorem run_with_timeout_answer_in_time process_data latency fits_pipe
    user_code_str input_data timeout_sec w s m t :
  (0 <= timeout_sec)%Q →
  returned (run_with_timeout process_data latency fits_pipe user_code_str
              input_data timeout_sec w)
  = Ret ((s, m), t) →
  s ≠ st_timeout →
  (t <= timeout_sec + grace)%Q.
Proof.
  intros HT.
  unfold run_with_timeout, join_process, run_user_code_in_process.
  pose proof (Queue_lookup w) as Hq. destruct (Queue w) as [queue w1].
  cbn [fst snd] in Hq.
  pose proof (empty_put w1 queue) as Hp. pose proof (get_put w1 queue) as Hg.
  pose proof (get_put_torn w1 queue) as Ht.
  assert (He : empty queue w1 = true) by (unfold empty; by rewrite Hq).
  destruct (process_data input_data) as [[v|e] t0 y|y];
    [destruct (fits_pipe _)|destruct (is_Exception e); [destruct (fits_pipe _)|]|];
    destruct latency as [k|];
    unfold_clock; unfold grace in *; cbn; qdec_eq.
  all: try rewrite !(Hp _ _ Hq); try rewrite !He; cbn.
  all: try rewrite !(Hg _ Hq).
  all: try rewrite !(Ht _ Hq).
  all: clear Hp Hg Ht; cbn.
  all: intros Hret Hs; simplify_eq.
  all: minmax_specs; qsolve.
Qed.

Lemma run_with_timeout_answer_in_time_witness : (1 # 2 <= 1 + grace)%Q.
Proof.
  apply (run_with_timeout_answer_in_time echo (Some 0%Q) roomy ""
           sum_of_squares_input 1 world0 st_result sum_of_squares_input (1 # 2));
    [by vm_compute|by vm_compute|discriminate].
Defined.

(** X23: a message that does not fit the pipe blocks the caller.  When
    [process_data] returns within the deadline a value whose message does
    not fit the buffer of the pipe, the worker cannot exit; the watchdog
    thread terminates it at the deadline, and when it dies within the grace
    the caller finds the queue not empty and waits for ever in
    [queue.get()]. *)
Theorem oversized_message_blocks_caller process_data k fits_pipe user_code_str
    input_data timeout_sec w v t yields :
  process_data input_data = Finishes (Return v) t yields →
  fits_pipe (st_result, v) = false →
  (0 <= t)%Q → (t <= timeout_sec)%Q → (0 <= k)%Q → (k <= grace)%Q →
  returned (run_with_timeout process_data (Some k) fits_pipe user_code_str
              input_data timeout_sec w)
  = Diverge.
Proof.
  intros Hpd Hfits Ht HT Hk Hg.
  unfold run_with_timeout, join_process, run_user_code_in_process.
  rewrite Hpd, Hfits.
  pose proof (Queue_lookup w) as Hq. destruct (Queue w) as [queue w1].
  cbn [fst snd] in Hq.
  pose proof (empty_put w1 queue) as Hp.
  pose proof (get_put_torn w1 queue) as Htorn.
  assert (He : empty queue w1 = true) by (unfold empty; by rewrite Hq).
  unfold_clock; unfold grace in *; cbn; qdec_eq.
  all: try rewrite !(Hp _ _ Hq); try rewrite !He; cbn.
  all: try rewrite !(Htorn _ Hq).
  all: clear Hp Htorn.
  all: try done.
  all: exfalso; minmax_specs; qsolve.
Qed.

Lemma oversized_message_blocks_caller_witness :
  returned (run_with_timeout squares_a_huge_number (Some 0%Q) pipe_64k ""
              huge_input 1 world0)
  = Diverge.
Proof.
  apply (oversized_message_blocks_caller squares_a_huge_number 0 pipe_64k ""
           huge_input 1 world0 (PyInt (user_code.process_data [2 ^ 300000]%Z))
           (1 # 10) Busy);
    [reflexivity|by vm_compute..].
Defined.

(** ** Witnesses for the orchestrator *)

Lemma validate_user_code_no_cases_witness :
  validate_user_code exec_echo str_sample (λ _, "") "" [] [0]
  = {| verdict := Ret (true, "", None); harness_runs := 1 |}.
Proof.
  apply (validate_user_code_no_cases exec_echo str_sample (λ _, "") "" [0]
           {[ "process_data" := CoroutineFunction echo ]} echo);
    reflexivity.
Defined.

Lemma validate_user_code_true_sound_witness :
  ∃ local_vars user_func,
    exec_echo "" = Ret local_vars
    ∧ local_vars !! "process_data" = Some (CoroutineFunction user_func)
    ∧ (None : option Z) = None
    ∧ harness_runs (validate_user_code exec_echo str_sample (λ _, "0.500") ""
                      passing_cases [1; 0]) = 1
    ∧ ∀ inp out, (inp, out) ∈ passing_cases →
        ∃ v t, wait_for (user_func inp) default_timeout = Ret (v, t)
               ∧ py_eq v out = true.
Proof.
  eapply (validate_user_code_true_sound exec_echo str_sample (λ _, "0.500") ""
            passing_cases [1; 0]).
  vm_compute. reflexivity.
Defined.


Lemma validate_user_code_line_witness :
  false = false
  ∧ harness_runs (validate_user_code exec_sample str_sample (λ _, "")
                    broken_source two_cases [0; 1]) = 0
  ∧ ∃ e msg, exec_sample broken_source = Throw e
             ∧ cls e = SyntaxError msg (Some 2%Z).
Proof.
  eapply (validate_user_code_line exec_sample str_sample (λ _, "") broken_source
            two_cases [0; 1]).
  vm_compute. reflexivity.
Defined.


Lemma report_from_length_witness :
  length ["Тест 1: ✅ Время: 0.500 с"; "Тест 2: ❌ Время: 0.500 с";
          "Ожидалось: 3, получили: 2"]
  = length sample_results
    + length (List.filter (λ r, negb (passed r)) sample_results).
Proof.
  apply (report_from_length str_sample (λ _, "0.500") 1 sample_results).
  by vm_compute.
Defined.

(** ** Witnesses for main.py *)

Lemma search_re_positions_witness :
  ∃ j line found a b,
    splitlines_sample "x = 1" !! j = Some line
    ∧ finditer_sample "x" line = Ret found
    ∧ (a, b) ∈ found
    ∧ 1 ≤ j + 1 ≤ length (splitlines_sample "x = 1")
    ∧ "1.0" = position (j + 1) a ∧ "1.1" = position (j + 1) b.
Proof.
  apply (search_re_positions splitlines_sample finditer_sample "x" "x = 1"
           [("1.0", "1.1")] "1.0" "1.1"); [reflexivity|by left].
Defined.

Lemma search_re_count_witness :
  ∃ founds,
    Forall2 (λ line found, finditer_sample "x" line = Ret found)
      (splitlines_sample "x = 1") founds
    ∧ length [("1.0", "1.1")] = length (concat founds).
Proof.
  apply (search_re_count splitlines_sample finditer_sample "x" "x = 1"
           [("1.0", "1.1")]).
  reflexivity.
Defined.
